(** * Endpoint coverage checker ([scripts/check_coverage.py])

    A shallow embedding of the coverage script: the regular expressions it
    uses (a small backtracking engine in the style of Python's [re]), the
    scanner of the service sources, the loader of the OpenAPI document, the
    matcher and the aggregation with its threshold gate.

    Strings are [string]; a character is an [ascii], read as a code point
    below 256.  Sets of paths ([set[str]]) are [gset string]. *)

From Stdlib Require Import ZArith Bool Ascii String List Lia.
From Stdlib Require Import Floats.SpecFloat.
From Stdlib Require Import Sorting.Permutation.
From stdpp Require Import base decidable option list gmap strings.

Local Open Scope list_scope.
Local Open Scope string_scope.

Set Warnings "-register-all".

(* ===================================================================== *)
(** * Characters and Python string methods                                 *)
(* ===================================================================== *)

Module Py.

Definition code (c : ascii) : N := N_of_ascii c.

Definition between (lo hi : N) (c : ascii) : bool :=
  (lo <=? code c)%N && (code c <=? hi)%N.

(** [str.isdigit]-style decimal digits below code point 256: only 0-9. *)
Definition is_digit (c : ascii) : bool := between 48 57 c.

(** Unicode white space below code point 256, as [\s] sees it on [str]:
    TAB LF VT FF CR, FS GS RS US, SPACE, NEL and NBSP. *)
Definition is_space (c : ascii) : bool :=
  between 9 13 c || between 28 32 c
  || (code c =? 133)%N || (code c =? 160)%N.

Definition is_ascii_alnum (c : ascii) : bool :=
  between 48 57 c || between 65 90 c || between 97 122 c.

(** [str.lower] on one character: A-Z and the Latin-1 capitals. *)
Definition lower_char (c : ascii) : ascii :=
  if between 65 90 c || (between 192 222 c && negb (code c =? 215)%N)
  then ascii_of_N (code c + 32) else c.

(** [str.upper] on one character, for the ASCII letters.  The Latin-1 small
    letters are left alone here: their capitals are not all single code
    points below 256, and [parse_openapi] only upper-cases keys whose lower
    case is one of the ASCII verbs. *)
Definition upper_char (c : ascii) : ascii :=
  if between 97 122 c then ascii_of_N (code c - 32) else c.

Fixpoint map_chars (f : ascii -> ascii) (s : string) : string :=
  match s with
  | EmptyString => EmptyString
  | String c r => String (f c) (map_chars f r)
  end.

Definition lower (s : string) : string := map_chars lower_char s.
Definition upper (s : string) : string := map_chars upper_char s.

(** [s.startswith(p)] *)
Fixpoint startswith (p s : string) : bool :=
  match p, s with
  | EmptyString, _ => true
  | String a p', String b s' => Ascii.eqb a b && startswith p' s'
  | String _ _, EmptyString => false
  end.

(** Truthiness of a string: non-empty. *)
Definition nonempty (s : string) : bool :=
  match s with EmptyString => false | String _ _ => true end.

(** [c in s] for a one-character [c]. *)
Fixpoint contains (c : ascii) (s : string) : bool :=
  match s with
  | EmptyString => false
  | String a r => Ascii.eqb a c || contains c r
  end.

(** [s.split(sep)] for a one-character separator: the pieces between the
    occurrences of [sep], in order; never the empty list. *)
Fixpoint split (sep : ascii) (s : string) : list string :=
  match s with
  | EmptyString => [EmptyString]
  | String c r =>
      if Ascii.eqb c sep then EmptyString :: split sep r
      else match split sep r with
           | piece :: pieces => String c piece :: pieces
           | [] => [String c EmptyString]
           end
  end.

(** [l[0]] of a list of strings; [None] is Python's [IndexError]. *)
Definition item0 (l : list string) : option string := head l.

Fixpoint drop (n : nat) (s : string) : string :=
  match n, s with
  | O, _ => s
  | S n', String _ r => drop n' r
  | S _, EmptyString => EmptyString
  end.

(** [s.replace(old, new)]: the non-overlapping occurrences of [old], found
    from the left, are replaced by [new].  With an empty [old] Python puts
    [new] before every character and at the end. *)
Fixpoint replace_loop (fuel : nat) (old new s : string) : string :=
  match fuel with
  | O => s
  | S fuel' =>
      match s with
      | EmptyString => EmptyString
      | String c r =>
          if startswith old s
          then new ++ replace_loop fuel' old new (drop (String.length old) s)
          else String c (replace_loop fuel' old new r)
      end
  end.

Fixpoint intersperse (new s : string) : string :=
  match s with
  | EmptyString => new
  | String c r => new ++ String c (intersperse new r)
  end.

Definition replace (old new s : string) : string :=
  match old with
  | EmptyString => intersperse new s
  | String _ _ => replace_loop (String.length s) old new s
  end.

End Py.

(* ===================================================================== *)
(** * A backtracking matcher for the fragment of [re] the script uses      *)
(* ===================================================================== *)

Module Re.

(** Single-character items, named after the opcodes of [sre]. *)
Inductive cset : Type :=
| LITERAL (c : ascii)
| NOT_LITERAL (c : ascii)
| CATEGORY_SPACE
| CATEGORY_DIGIT.

Definition cset_mem (cs : cset) (c : ascii) : bool :=
  match cs with
  | LITERAL a => Ascii.eqb c a
  | NOT_LITERAL a => negb (Ascii.eqb c a)
  | CATEGORY_SPACE => Py.is_space c
  | CATEGORY_DIGIT => Py.is_digit c
  end.

(** Patterns.  Repetition only occurs on single-character items in the
    script's patterns, and is greedy. *)
Inductive re : Type :=
| Eps
| Chr (cs : cset)
| Star (cs : cset)
| Plus (cs : cset)
| Seq (r1 r2 : re)
| Alt (r1 r2 : re)
| Opt (r : re)
| Grp (n : nat) (r : re)
| Bol
| Eol.

(** Captured groups, newest binding first. *)
Definition caps : Type := list (nat * string).

Fixpoint lookup_group (n : nat) (g : caps) : option string :=
  match g with
  | [] => None
  | (k, s) :: g' => if Nat.eqb k n then Some s else lookup_group n g'
  end.

Record result : Type := mk_result {
  r_end : nat;          (* position after the match *)
  r_rest : string;      (* text after the match *)
  r_caps : caps
}.

(** A continuation receives the position, the remaining text and the groups
    captured so far. *)
Definition cont : Type := nat -> string -> caps -> option result.

Definition accept : cont := fun pos s g => Some (mk_result pos s g).

(** [$] without MULTILINE: at the end, or before a newline that ends the
    text. *)
Definition at_end (s : string) : bool :=
  match s with
  | EmptyString => true
  | String c EmptyString => Ascii.eqb c "010"%char
  | String _ (String _ _) => false
  end.

(** Greedy repetition of a one-character item: the longest run first, then
    shorter ones on backtracking. *)
Fixpoint rep (cs : cset) (k : cont) (pos : nat) (s : string) (g : caps)
  : option result :=
  match s with
  | String c s' =>
      if cset_mem cs c then
        match rep cs k (S pos) s' g with
        | Some r => Some r
        | None => k pos s g
        end
      else k pos s g
  | EmptyString => k pos s g
  end.

Definition one (cs : cset) (k : cont) (pos : nat) (s : string) (g : caps)
  : option result :=
  match s with
  | String c s' => if cset_mem cs c then k (S pos) s' g else None
  | EmptyString => None
  end.

Fixpoint exec (r : re) (k : cont) (pos : nat) (s : string) (g : caps)
  : option result :=
  match r with
  | Eps => k pos s g
  | Chr cs => one cs k pos s g
  | Star cs => rep cs k pos s g
  | Plus cs => one cs (rep cs k) pos s g
  | Seq r1 r2 => exec r1 (exec r2 k) pos s g
  | Alt r1 r2 =>
      match exec r1 k pos s g with
      | Some res => Some res
      | None => exec r2 k pos s g
      end
  | Opt r1 =>
      match exec r1 k pos s g with
      | Some res => Some res
      | None => k pos s g
      end
  | Grp n r1 =>
      exec r1 (fun pos' s' g' =>
                 k pos' s' ((n, substring 0 (pos' - pos) s) :: g')) pos s g
  | Bol => if Nat.eqb pos 0 then k pos s g else None
  | Eol => if at_end s then k pos s g else None
  end.

(** [regex.match(s)]: a match that starts at the first character. *)
Definition re_match (r : re) (s : string) : option result :=
  exec r accept 0 s [].

(** A match object: its span and its groups. *)
Record match_obj : Type := mk_match {
  m_start : nat;
  m_end : nat;
  m_caps : caps
}.

(** [m.group(n)]: [None] when the group took no part in the match. *)
Definition group (n : nat) (m : match_obj) : option string :=
  lookup_group n (m_caps m).

(** [regex.finditer(s)]: the non-overlapping matches, leftmost first.  None
    of the script's patterns can match the empty string
    ([exec_progress] below); on an empty match the scan moves one character
    on. *)
Fixpoint finditer_from (fuel : nat) (r : re) (pos : nat) (s : string)
  : list match_obj :=
  match fuel with
  | O => []
  | S fuel' =>
      match exec r accept pos s [] with
      | Some res =>
          if Nat.ltb pos (r_end res)
          then mk_match pos (r_end res) (r_caps res)
                 :: finditer_from fuel' r (r_end res) (r_rest res)
          else mk_match pos (r_end res) (r_caps res)
                 :: match s with
                    | String _ s' => finditer_from fuel' r (S pos) s'
                    | EmptyString => []
                    end
      | None =>
          match s with
          | String _ s' => finditer_from fuel' r (S pos) s'
          | EmptyString => []
          end
      end
  end.

Definition finditer (r : re) (s : string) : list match_obj :=
  finditer_from (S (String.length s)) r 0 s.

(** [re.sub(r, repl, s)] for a replacement template without backslashes:
    every match is replaced by [repl], the text between matches is kept. *)
Fixpoint sub_from (fuel : nat) (r : re) (repl : string) (pos : nat)
  (s : string) : string :=
  match fuel with
  | O => s
  | S fuel' =>
      match exec r accept pos s [] with
      | Some res =>
          if Nat.ltb pos (r_end res)
          then repl ++ sub_from fuel' r repl (r_end res) (r_rest res)
          else repl ++ match s with
                       | String c s' =>
                           String c (sub_from fuel' r repl (S pos) s')
                       | EmptyString => EmptyString
                       end
      | None =>
          match s with
          | String c s' => String c (sub_from fuel' r repl (S pos) s')
          | EmptyString => EmptyString
          end
      end
  end.

Definition sub (r : re) (repl s : string) : string :=
  sub_from (S (String.length s)) r repl 0 s.

(** The characters [re.escape] puts a backslash before (Python 3.7 and
    later): [()[]{}?*+-|^$\.&~#], the space and TAB LF CR VT FF. *)
Definition special_chars : string :=
  String "009" (String "010" (String "011" (String "012" (String "013"
    " #$&()*+-.?[\]^{|}~")))).

Definition is_special (c : ascii) : bool := Py.contains c special_chars.

Fixpoint escape (s : string) : string :=
  match s with
  | EmptyString => EmptyString
  | String c r =>
      if is_special c then String "\" (String c (escape r))
      else String c (escape r)
  end.

(** [re.compile] on the syntax that [match_endpoint] produces: [^] and [$],
    a backslash before a character that is no ASCII letter or digit, a
    negated set of one plain character, [+] and [*] after a one-character
    item, and plain characters.  Anything else is [None]: syntax that this
    model does not read. *)
Definition plain (c : ascii) : bool :=
  negb (Py.contains c ".\[{()*+?^$|").

Definition quantified (cs : cset) (s : string) : re * string :=
  match s with
  | String "+" r => (Plus cs, r)
  | String "*" r => (Star cs, r)
  | _ => (Chr cs, s)
  end.

Definition lazy_or_counted (s : string) : bool :=
  match s with
  | String "?" _ => true
  | String "{" _ => true
  | String "+" _ => true
  | String "*" _ => true
  | _ => false
  end.

Fixpoint parse (fuel : nat) (s : string) : option re :=
  match fuel with
  | O => None
  | S fuel' =>
      let item (cs : cset) (r : string) : option re :=
        let '(node, r') := quantified cs r in
        if lazy_or_counted r' then None
        else option_map (Seq node) (parse fuel' r') in
      match s with
      | EmptyString => Some Eps
      | String c r =>
          if Ascii.eqb c "^" then option_map (Seq Bol) (parse fuel' r)
          else if Ascii.eqb c "$" then option_map (Seq Eol) (parse fuel' r)
          else if Ascii.eqb c "\" then
            match r with
            | String e r' =>
                if Py.is_ascii_alnum e then None else item (LITERAL e) r'
            | EmptyString => None
            end
          else if Ascii.eqb c "[" then
            match r with
            | String neg (String m (String close r')) =>
                if Ascii.eqb neg "^" && Ascii.eqb close "]"
                   && negb (Ascii.eqb m "\" || Ascii.eqb m "]"
                            || Ascii.eqb m "[")
                then item (NOT_LITERAL m) r' else None
            | _ => None
            end
          else if plain c then item (LITERAL c) r else None
      end
  end.

Definition compile (pattern : string) : option re :=
  parse (S (String.length pattern)) pattern.

(** Literal text as a pattern. *)
Fixpoint lit (s : string) : re :=
  match s with
  | EmptyString => Eps
  | String c r => Seq (Chr (LITERAL c)) (lit r)
  end.

(** [a|b|...], the first alternative first. *)
Fixpoint alts (rs : list re) : re :=
  match rs with
  | [] => Eps
  | [r] => r
  | r :: rs' => Alt r (alts rs')
  end.

Fixpoint seqs (rs : list re) : re :=
  match rs with
  | [] => Eps
  | r :: rs' => Seq r (seqs rs')
  end.

End Re.

(* ===================================================================== *)
(** * The script                                                           *)
(* ===================================================================== *)

Import Re.

(** ** 1. Parse the OpenAPI spec *)

(** What [json.load] returns.  A JSON object is a [dict]: its items in the
    order of the document, its keys distinct. *)
Inductive json : Type :=
| JNull
| JBool (b : bool)
| JInt (z : Z)
| JFloat (f : spec_float)
| JStr (s : string)
| JList (l : list json)
| JDict (d : list (string * json)).

(** [d.get(key, default)] on the items of a dict. *)
Fixpoint dict_get (key : string) (d : list (string * json)) (default : json)
  : json :=
  match d with
  | [] => default
  | (k, v) :: d' => if String.eqb k key then v else dict_get key d' default
  end.

(** [x.items()]: only a dict has it, anything else raises
    [AttributeError]. *)
Definition items (x : json) : option (list (string * json)) :=
  match x with
  | JDict d => Some d
  | _ => None
  end.

(** [x.get(key, default)]: only a dict has it. *)
Definition get (x : json) (key : string) (default : json) : option json :=
  match x with
  | JDict d => Some (dict_get key d default)
  | _ => None
  end.

(** [isinstance(x, dict)] *)
Definition is_dict (x : json) : bool :=
  match x with
  | JDict _ => true
  | _ => false
  end.

(** [bool(x)] *)
Definition py_bool (x : json) : bool :=
  match x with
  | JNull => false
  | JBool b => b
  | JInt z => negb (z =? 0)%Z
  | JFloat f => match f with S754_zero _ => false | _ => true end
  | JStr s => Py.nonempty s
  | JList l => match l with [] => false | _ :: _ => true end
  | JDict d => match d with [] => false | _ :: _ => true end
  end.

(** HTTP methods we care about in the OpenAPI spec *)
Definition HTTP_METHODS : gset string :=
  list_to_set ["get"; "post"; "put"; "patch"; "delete"; "head"; "options"].

(** An endpoint dict: keys method, path, operation_id, deprecated. *)
Record endpoint : Type := mk_endpoint {
  ep_method : string;
  ep_path : string;
  ep_operation_id : json;
  ep_deprecated : bool
}.

(** A loop over a sequence whose body may raise ([None]). *)
Fixpoint for_each {A S : Type} (body : S -> A -> option S) (xs : list A)
  (st : S) : option S :=
  match xs with
  | [] => Some st
  | x :: xs' => st' ← body st x; for_each body xs' st'
  end.

(** The body of the inner loop of [parse_openapi]. *)
Definition parse_operation (path : string) (endpoints : list endpoint)
  (item : string * json) : option (list endpoint) :=
  let '(method, detail) := item in
  if negb (bool_decide (Py.lower method ∈ HTTP_METHODS)) then Some endpoints
  else if negb (is_dict detail) then Some endpoints
  else
    operation_id ← get detail "operationId" (JStr "");
    deprecated ← get detail "deprecated" (JBool false);
    Some (endpoints ++ [mk_endpoint (Py.upper method) path operation_id
                                    (py_bool deprecated)])%list.

(** The body of the outer loop. *)
Definition parse_path_item (endpoints : list endpoint)
  (item : string * json) : option (list endpoint) :=
  let '(path, methods) := item in
  operations ← items methods;
  for_each (parse_operation path) operations endpoints.

(** [parse_openapi] on the loaded document.  [None] stands for an
    exception. *)
Definition parse_openapi (spec : json) : option (list endpoint) :=
  paths ← get spec "paths" (JDict []);
  path_items ← items paths;
  for_each parse_path_item path_items [].

(** ** 2. Scan Rust service files for implemented endpoints *)

(** The double quote and the backquote. *)
Definition DQUOTE : ascii := "034"%char.
Definition BQUOTE : ascii := "096"%char.

Definition SPACES0 : re := Star CATEGORY_SPACE.
Definition SPACES1 : re := Plus CATEGORY_SPACE.

(** A quoted run of one or more characters other than the double quote,
    captured as group [n]. *)
Definition quoted_group (n : nat) : re :=
  seqs [Chr (LITERAL DQUOTE); Grp n (Plus (NOT_LITERAL DQUOTE));
        Chr (LITERAL DQUOTE)].

(** The verb-named call sites of the first alternative, in the order of the
    source. *)
Definition CALL_NAMES : list string :=
  ["get"; "post"; "post_bytes"; "post_stream"; "delete"; "delete_json";
   "delete_with_body"; "patch"; "put"; "post_multipart";
   "post_multipart_bytes"; "post_multipart_stream"; "get_bytes"].

(** [PATH_PATTERN], compiled with [re.VERBOSE]: the white space and the
    comments of the pattern text are not part of it.  Four alternatives:
    a call with a string literal (group 1), a [format!] with a string
    literal (group 2), a [let path =] binding of a string literal
    (group 3), and any string literal that begins with [/v1/] (group 4). *)
Definition PATH_PATTERN : re :=
  alts [
    seqs [lit "."; alts (map lit CALL_NAMES); SPACES0; lit "("; SPACES0;
          quoted_group 1];
    seqs [lit "format!"; SPACES0; lit "("; SPACES0; quoted_group 2];
    seqs [seqs [lit "let"; SPACES1; Opt (Seq (lit "mut") SPACES1);
                lit "path"; SPACES0; lit "="; SPACES0];
          quoted_group 3];
    seqs [Chr (LITERAL DQUOTE);
          Grp 4 (Seq (lit "/v1/") (Star (NOT_LITERAL DQUOTE)));
          Chr (LITERAL DQUOTE)]
  ].

(** [DOC_PATH_PATTERN]: a backquoted verb, white space and a path that
    begins with [/v], digits and a slash (group 1). *)
Definition DOC_PATH_PATTERN : re :=
  seqs [Chr (LITERAL BQUOTE);
        alts (map lit ["GET"; "POST"; "PUT"; "PATCH"; "DELETE"]);
        SPACES1;
        Grp 1 (seqs [lit "/v"; Plus CATEGORY_DIGIT; lit "/";
                     Plus (NOT_LITERAL BQUOTE)]);
        Chr (LITERAL BQUOTE)].

(** [raw.split(?)[0]]: the text before the first question mark. *)
Definition normalise_path (raw : string) : option string :=
  let path := Py.item0 (Py.split "?" raw) in
  path.

(** [a or b] on optional strings: [a] when it is a non-empty string. *)
Definition py_or (a b : option string) : option string :=
  match a with
  | Some s => if Py.nonempty s then a else b
  | None => b
  end.

(** An entry of the services directory that [glob] lists: its name, and
    what [read_text] gives for it, [None] when the call raises (an entry
    that is a directory, bytes that are no UTF-8 text, a file that may not
    be read). *)
Record rs_file : Type := mk_entry {
  f_name : string;
  f_read_text : option string
}.

(** A source file whose text is [content]. *)
Definition mk_file (name content : string) : rs_file :=
  mk_entry name (Some content).

(** One turn of the first inner loop of [scan_services]. *)
Definition scan_code_match (implemented : gset string) (m : match_obj)
  : option (gset string) :=
  let raw := py_or (py_or (py_or (group 1 m) (group 2 m)) (group 3 m))
                   (group 4 m) in
  match raw with
  | Some r =>
      if Py.nonempty r && Py.startswith "/v" r then
        normalised ← normalise_path r;
        Some ({[normalised]} ∪ implemented)
      else Some implemented
  | None => Some implemented
  end.

(** One turn of the second inner loop. *)
Definition scan_doc_match (implemented : gset string) (m : match_obj)
  : option (gset string) :=
  match group 1 m with
  | Some r =>
      if Py.nonempty r then
        normalised ← normalise_path r;
        Some ({[normalised]} ∪ implemented)
      else Some implemented
  | None => Some implemented
  end.

Definition scan_file (implemented : gset string) (f : rs_file)
  : option (gset string) :=
  if String.eqb (f_name f) "mod.rs" then Some implemented
  else
    content ← f_read_text f;
    implemented ← for_each scan_code_match (finditer PATH_PATTERN content)
                    implemented;
    for_each scan_doc_match (finditer DOC_PATH_PATTERN content) implemented.

(** [scan_services] on the [*.rs] entries of the directory, in the order of
    [sorted(services_dir.glob(...))].  [None] stands for an exception: the
    one of [read_text] on an entry that is not skipped. *)
Definition scan_services (rs_files : list rs_file) : option (gset string) :=
  for_each scan_file rs_files ∅.

(** ** 3. Match and report *)

Definition normalise_openapi_path (path : string) : string := path.

(** The pattern and the replacement of the [re.sub] call: an opening brace,
    one or more characters other than the closing brace, a closing brace. *)
Definition PLACEHOLDER : re :=
  seqs [Chr (LITERAL "{"); Plus (NOT_LITERAL "}"); Chr (LITERAL "}")].

Definition PLACEHOLDER_REPL : string := "{[^}]+}".

(** The literal of the [str.replace] call, which is both its [old] and its
    [new] argument. *)
Definition REPLACE_LITERAL : string := "\{[^}]+\}".

(** [any(regex.match(p) for p in implemented)] *)
Definition any_match (regex : re) (implemented : gset string) : bool :=
  existsb (fun p => bool_decide (is_Some (re_match regex p)))
          (elements implemented).

(** [None] stands for [re.error] at [re.compile]. *)
Definition match_endpoint (ep_path : string) (implemented : gset string)
  : option bool :=
  let normalised := normalise_openapi_path ep_path in
  if bool_decide (normalised ∈ implemented) then Some true
  else
    let pattern := Re.sub PLACEHOLDER PLACEHOLDER_REPL (escape normalised) in
    let pattern := Py.replace REPLACE_LITERAL REPLACE_LITERAL pattern in
    regex ← compile ("^" ++ pattern ++ "$");
    Some (any_match regex implemented).


(** Python numbers as [main] uses them: the integer 0 of the empty case and
    the binary64 floats of the division. *)
Inductive number : Type :=
| PyInt (z : Z)
| PyFloat (f : spec_float).

Definition prec : Z := 53.
Definition emax : Z := 1024.

(** [float(z)] for an integer that a binary64 float holds exactly, as list
    lengths and the constant 100 do. *)
Definition float_of_int (z : Z) : spec_float :=
  binary_normalize prec emax z 0 false.

Definition to_float (x : number) : spec_float :=
  match x with
  | PyInt z => float_of_int z
  | PyFloat f => f
  end.

(** [a / b] on integers: [None] stands for [ZeroDivisionError]. *)
Definition int_truediv (a b : Z) : option spec_float :=
  if (b =? 0)%Z then None
  else Some (SFdiv prec emax (float_of_int a) (float_of_int b)).

(** [x * 100] on a float. *)
Definition float_mul_int (x : spec_float) (n : Z) : spec_float :=
  SFmul prec emax x (float_of_int n).

(** [a < b] *)
Definition num_lt (a : number) (b : spec_float) : bool :=
  SFltb (to_float a) b.

Definition EXCLUDED_PATHS : gset string := {["/docs"]}.

(** One turn of the classification loop of [main]: the state is the pair of
    the lists [covered] and [missing]. *)
Definition classify (implemented : gset string)
  (st : list endpoint * list endpoint) (ep : endpoint)
  : option (list endpoint * list endpoint) :=
  let '(covered, missing) := st in
  match match_endpoint (ep_path ep) implemented with
  | Some true => Some ((covered ++ [ep])%list, missing)
  | Some false => Some (covered, (missing ++ [ep])%list)
  | None => None
  end.

(** [(covered_count / total_active * 100) if total_active else 0] *)
Definition percentage (covered_count total_active : Z) : option number :=
  if negb (total_active =? 0)%Z then
    q ← int_truediv covered_count total_active;
    Some (PyFloat (float_mul_int q 100))
  else Some (PyInt 0).

(** What the report of [main] is printed from. *)
Record report : Type := mk_report {
  rp_endpoints : list endpoint;
  rp_active : list endpoint;
  rp_deprecated : list endpoint;
  rp_covered : list endpoint;
  rp_missing : list endpoint;
  rp_total_active : Z;
  rp_covered_count : Z;
  rp_pct : number
}.

(** Lines 179 to 197 of [main]: from the endpoints and the implemented set
    to the figures of the report. *)
Definition coverage (endpoints : list endpoint) (implemented : gset string)
  : option report :=
  let active := List.filter (fun ep => negb (ep_deprecated ep)) endpoints in
  let deprecated := List.filter (fun ep => ep_deprecated ep) endpoints in
  let active :=
    List.filter
      (fun ep => negb (bool_decide (ep_path ep ∈ EXCLUDED_PATHS))) active in
  '(covered, missing) ← for_each (classify implemented) active ([], []);
  let total_active := Z.of_nat (length active) in
  let covered_count := Z.of_nat (length covered) in
  pct ← percentage covered_count total_active;
  Some (mk_report endpoints active deprecated covered missing total_active
                  covered_count pct).

(** The inputs of a run: the specification file, the services directory and
    the environment variable COVERAGE_THRESHOLD. *)
Inductive spec_file : Type :=
| SpecMissing
| SpecMalformed
| SpecLoaded (doc : json).

Inductive threshold_env : Type :=
| Unset
| SetTo (value : spec_float)
| SetToJunk.

(** [float(os.environ.get(COVERAGE_THRESHOLD, 0))]; [None] stands for
    [ValueError]. *)
Definition read_threshold (env : threshold_env) : option spec_float :=
  match env with
  | Unset => Some (S754_zero false)
  | SetTo value => Some value
  | SetToJunk => None
  end.

(** How a run ends. *)
Inductive status : Type :=
| Done                (* the last line is printed, exit status 0 *)
| BelowThreshold      (* FAIL on the error stream, [sys.exit(1)] *)
| InputNotFound       (* ERROR on the error stream, [sys.exit(1)] *)
| Uncaught.           (* an exception ends the run, exit status 1 *)

Definition exit_code (st : status) : Z :=
  match st with
  | Done => 0
  | _ => 1
  end.

Record outcome : Type := mk_outcome {
  o_report : option report;    (* the report, when it was printed *)
  o_status : status
}.

(** Lines 235 to 244: the threshold gate, after the report. *)
Definition gate (r : report) (env : threshold_env) : outcome :=
  match read_threshold env with
  | None => mk_outcome (Some r) Uncaught
  | Some threshold =>
      if num_lt (rp_pct r) threshold
      then mk_outcome (Some r) BelowThreshold
      else mk_outcome (Some r) Done
  end.

Definition main (openapi : spec_file) (services : option (list rs_file))
  (env : threshold_env) : outcome :=
  match openapi with
  | SpecMissing => mk_outcome None InputNotFound
  | _ =>
      match services with
      | None => mk_outcome None InputNotFound
      | Some rs_files =>
          let computed :=
            doc ← match openapi with SpecLoaded doc => Some doc | _ => None end;
            endpoints ← parse_openapi doc;
            implemented ← scan_services rs_files;
            coverage endpoints implemented in
          match computed with
          | None => mk_outcome None Uncaught
          | Some r => gate r env
          end
      end
  end.

(* ===================================================================== *)
(** * The mock server ([scripts/mock-server.py])                           *)
(* ===================================================================== *)

Module MockServer.

(** The bodies of the responses.  The model names the module's constants
    and does not spell out their bytes; the body of the 404 response is
    built from the request, and carries its message here. *)
Inductive payload : Type :=
| MODELS
| VOICES
| VOICE_SETTINGS
| USER
| SUBSCRIPTION
| HISTORY
| TTS_AUDIO
| VOICE_GEN_PARAMS
| PROJECTS
| DUBBING
| AGENTS
| SERVICE_ACCOUNTS
| NOT_FOUND (message : string).

(** An entry of the route table: method, compiled pattern, status, content
    type, body. *)
Record route : Type := mk_route {
  rt_method : string;
  rt_pattern : re;
  rt_status : Z;
  rt_content_type : string;
  rt_body : payload
}.

(** A pattern that is a path between [^] and [$]. *)
Definition literal_pattern (path : string) : re := seqs [Bol; lit path; Eol].

(** The pattern of the text-to-speech route: the prefix, then one or more
    characters other than the slash. *)
Definition TTS_PATTERN : re :=
  seqs [Bol; lit "/v1/text-to-speech/"; Plus (NOT_LITERAL "/"); Eol].

Definition ROUTES : list route :=
  [mk_route "GET" (literal_pattern "/v1/models") 200 "application/json" MODELS;
   mk_route "GET" (literal_pattern "/v1/voices") 200 "application/json" VOICES;
   mk_route "GET" (literal_pattern "/v1/voices/settings/default") 200
            "application/json" VOICE_SETTINGS;
   mk_route "GET" (literal_pattern "/v1/user") 200 "application/json" USER;
   mk_route "GET" (literal_pattern "/v1/user/subscription") 200
            "application/json" SUBSCRIPTION;
   mk_route "GET" (literal_pattern "/v1/history") 200 "application/json"
            HISTORY;
   mk_route "POST" TTS_PATTERN 200 "audio/mpeg" TTS_AUDIO;
   mk_route "GET"
            (literal_pattern "/v1/voice-generation/generate-voice/parameters")
            200 "application/json" VOICE_GEN_PARAMS;
   mk_route "GET" (literal_pattern "/v1/studio/projects") 200
            "application/json" PROJECTS;
   mk_route "GET" (literal_pattern "/v1/dubbing") 200 "application/json"
            DUBBING;
   mk_route "GET" (literal_pattern "/v1/convai/agents") 200
            "application/json" AGENTS;
   mk_route "GET" (literal_pattern "/v1/service-accounts") 200
            "application/json" SERVICE_ACCOUNTS].

(** What the handler sends: the status, the Content-Type header and the
    body. *)
Record response : Type := mk_response {
  rs_status : Z;
  rs_content_type : string;
  rs_body : payload
}.

(** The test of the loop of [_route]. *)
Definition route_matches (method path : string) (rt : route) : bool :=
  String.eqb (rt_method rt) method
  && bool_decide (is_Some (re_match (rt_pattern rt) path)).

(** [MockHandler._route] on the request target [self_path]: the first route
    of the table that matches answers; otherwise the 404 response.  [None]
    stands for an exception. *)
Definition _route (self_path method : string) : option response :=
  path ← Py.item0 (Py.split "?" self_path);
  match List.find (route_matches method path) ROUTES with
  | Some rt =>
      Some (mk_response (rt_status rt) (rt_content_type rt) (rt_body rt))
  | None =>
      Some (mk_response 404 "application/json"
              (NOT_FOUND ("Not found: " ++ method ++ " " ++ path)))
  end.

Definition do_GET (self_path : string) : option response :=
  _route self_path "GET".









End MockServer.

(* ===================================================================== *)
(** * Descriptions used by the statements                                  *)
(* ===================================================================== *)

(** ** The structural pattern of a path template *)

(** A path template read as a sequence of tokens: a placeholder runs from
    an opening brace to the first closing brace after it; every other
    character stands for itself.  An opening brace with no closing brace
    after it, and a closing brace outside a placeholder, are plain
    characters. *)
Inductive token : Type :=
| TLit (c : ascii)
| TWild.

(** The text after the first closing brace. *)
Fixpoint after_close (s : string) : string :=
  match s with
  | EmptyString => EmptyString
  | String c r => if Ascii.eqb c "}" then r else after_close r
  end.

(** The text before the first closing brace. *)
Fixpoint before_close (s : string) : string :=
  match s with
  | EmptyString => EmptyString
  | String c r =>
      if Ascii.eqb c "}" then EmptyString else String c (before_close r)
  end.

Fixpoint tokens (s : string) : list token :=
  match s with
  | EmptyString => []
  | String c r =>
      if Ascii.eqb c "{" && Py.contains "}" r
      then TWild :: skip_placeholder r
      else TLit c :: tokens r
  end
with skip_placeholder (s : string) : list token :=
  match s with
  | EmptyString => []
  | String c r => if Ascii.eqb c "}" then tokens r else skip_placeholder r
  end.

(** A text matches a token sequence from its first to its last character:
    a literal token takes its own character, a placeholder takes a piece
    that [wild] accepts. *)
Inductive tokens_match (wild : string -> Prop) : list token -> string -> Prop :=
| tm_nil : tokens_match wild [] EmptyString
| tm_lit c ts p :
    tokens_match wild ts p -> tokens_match wild (TLit c :: ts) (String c p)
| tm_wild v ts p :
    wild v -> tokens_match wild ts p -> tokens_match wild (TWild :: ts) (v ++ p).

(** What a placeholder of the pattern takes in the code: a placeholder of
    the implemented path, that is an opening brace, a non-empty name with no
    closing brace in it (slashes allowed), and a closing brace. *)
Definition braced (v : string) : Prop :=
  exists name, v = String "{" (name ++ "}")
               /\ name <> EmptyString /\ Py.contains "}" name = false.

(** What a placeholder takes as the specification words it: any segment
    value, that is a non-empty text with no slash in it. *)
Definition segment_value (v : string) : Prop :=
  v <> EmptyString /\ Py.contains "/" v = false.

(** The implemented path does not end in a newline character. *)
Fixpoint ends_with_newline (s : string) : bool :=
  match s with
  | EmptyString => false
  | String c EmptyString => Ascii.eqb c "010"%char
  | String _ r => ends_with_newline r
  end.

(** The pattern text that the two substitutions produce for a token
    sequence, and the compiled pattern. *)
Definition escape_char (c : ascii) : string :=
  if is_special c then String "\" (String c EmptyString)
  else String c EmptyString.

Fixpoint render (ts : list token) : string :=
  match ts with
  | [] => EmptyString
  | TLit c :: ts' => escape_char c ++ render ts'
  | TWild :: ts' => "\{[^}]+}" ++ render ts'
  end.

Fixpoint nodes (ts : list token) (tail : re) : re :=
  match ts with
  | [] => tail
  | TLit c :: ts' => Seq (Chr (LITERAL c)) (nodes ts' tail)
  | TWild :: ts' =>
      Seq (Chr (LITERAL "{"))
          (Seq (Plus (NOT_LITERAL "}"))
               (Seq (Chr (LITERAL "}")) (nodes ts' tail)))
  end.

(** The next character cannot be read as a quantifier. *)
Definition safe_head (s : string) : bool :=
  match s with
  | EmptyString => true
  | String c _ => negb (Py.contains c "+*?{")
  end.


(** ** The classification of [main], as functions of its inputs *)

(** What [match_endpoint] returns for a path template. *)
Definition covers (implemented : gset string) (ep_path : string) : bool :=
  bool_decide (ep_path ∈ implemented)
  || any_match (Seq Bol (nodes (tokens ep_path) (Seq Eol Eps))) implemented.

(** The active endpoints: not deprecated and not on an excluded path. *)
Definition is_active (ep : endpoint) : bool :=
  negb (ep_deprecated ep)
  && negb (bool_decide (ep_path ep ∈ EXCLUDED_PATHS)).

(** The percentage, where the division is defined. *)
Definition pct_of (covered_count total_active : Z) : number :=
  if (total_active =? 0)%Z then PyInt 0
  else PyFloat (float_mul_int
                  (SFdiv prec emax (float_of_int covered_count)
                         (float_of_int total_active)) 100).

(** A float that is no negative number: its sign bit is clear, or it is no
    number at all. *)
Definition sign_clear (f : spec_float) : bool :=
  match f with
  | S754_nan => true
  | S754_zero s | S754_infinity s | S754_finite s _ _ => negb s
  end.

(** ** The descriptors of a specification document *)

(** The descriptor of one operation object. *)
Definition descriptor (path method : string) (detail : list (string * json))
  : endpoint :=
  mk_endpoint (Py.upper method) path
              (dict_get "operationId" detail (JStr ""))
              (py_bool (dict_get "deprecated" detail (JBool false))).

(** The descriptors of the operations of one path item, in order: one for
    every key whose lower case is an HTTP verb and whose value is a dict. *)
Definition operation_descriptors (path : string)
  (operations : list (string * json)) : list endpoint :=
  flat_map (fun item : string * json =>
              match snd item with
              | JDict detail =>
                  if bool_decide (Py.lower (fst item) ∈ HTTP_METHODS)
                  then [descriptor path (fst item) detail] else []
              | _ => []
              end) operations.

Definition path_descriptors (paths : list (string * json)) : list endpoint :=
  flat_map (fun item : string * json =>
              match snd item with
              | JDict operations => operation_descriptors (fst item) operations
              | _ => []
              end) paths.

(** The verbs in upper case. *)
Definition UPPER_METHODS : list string :=
  ["GET"; "POST"; "PUT"; "PATCH"; "DELETE"; "HEAD"; "OPTIONS"].

(** Only the letters a to z. *)
Fixpoint all_lower_letters (s : string) : bool :=
  match s with
  | EmptyString => true
  | String c r => Py.between 97 122 c && all_lower_letters r
  end.


(** ** What a pattern matches *)

(** Every character of the text is in the set. *)
Fixpoint all_in (cs : cset) (w : string) : bool :=
  match w with
  | EmptyString => true
  | String c r => cset_mem cs c && all_in cs r
  end.

(** [run r g w g']: the pattern [r] can take exactly the text [w], turning
    the captured groups [g] into [g'].  Positions are left out, so the
    anchors take the empty text anywhere. *)
Inductive run : re -> caps -> string -> caps -> Prop :=
| run_eps g : run Eps g EmptyString g
| run_chr cs c g :
    cset_mem cs c = true -> run (Chr cs) g (String c EmptyString) g
| run_star cs w g : all_in cs w = true -> run (Star cs) g w g
| run_plus cs c w g :
    all_in cs (String c w) = true -> run (Plus cs) g (String c w) g
| run_seq r1 r2 g w1 g1 w2 g2 :
    run r1 g w1 g1 -> run r2 g1 w2 g2 -> run (Seq r1 r2) g (w1 ++ w2) g2
| run_alt_l r1 r2 g w g' : run r1 g w g' -> run (Alt r1 r2) g w g'
| run_alt_r r1 r2 g w g' : run r2 g w g' -> run (Alt r1 r2) g w g'
| run_opt_some r g w g' : run r g w g' -> run (Opt r) g w g'
| run_opt_none r g : run (Opt r) g EmptyString g
| run_grp n r g w g' : run r g w g' -> run (Grp n r) g w ((n, w) :: g')
| run_bol g : run Bol g EmptyString g
| run_eol g : run Eol g EmptyString g.

(** The pattern can take the empty text. *)
Fixpoint nullable (r : re) : bool :=
  match r with
  | Eps | Star _ | Opt _ | Bol | Eol => true
  | Chr _ | Plus _ => false
  | Seq r1 r2 => nullable r1 && nullable r2
  | Alt r1 r2 => nullable r1 || nullable r2
  | Grp _ r1 => nullable r1
  end.

(** The pattern has no capturing group. *)
Fixpoint group_free (r : re) : bool :=
  match r with
  | Eps | Chr _ | Star _ | Plus _ | Bol | Eol => true
  | Seq r1 r2 | Alt r1 r2 => group_free r1 && group_free r2
  | Opt r1 => group_free r1
  | Grp _ _ => false
  end.

(** What the scanner keeps of a path: it begins with /v and holds no
    question mark. *)
Definition versioned (p : string) : Prop :=
  Py.startswith "/v" p = true /\ Py.contains "?" p = false.

(** A Rust string literal: the text between two double quotes. *)
Definition quoted (s : string) : string :=
  String DQUOTE (s ++ String DQUOTE EmptyString).

(** The scan gets past the entry: it is skipped for its name, or
    [read_text] returns its text. *)
Definition scannable (f : rs_file) : Prop :=
  f_name f = "mod.rs" \/ is_Some (f_read_text f).

(** ** Text before the first match of a pattern *)

(** The pattern matches at no position inside [pre], whatever position
    number the scan has reached, when [pre] is followed by [s]. *)
Fixpoint no_match_in (r : re) (pre s : string) : Prop :=
  match pre with
  | EmptyString => True
  | String c b =>
      (forall pos, exec r accept pos (String c (b ++ s)) [] = None)
      /\ no_match_in r b s
  end.

(** ** Path templates built from literal pieces and placeholder names *)

(** [template [(l1, n1); (l2, n2); ...] tail] is the text
    l1 {n1} l2 {n2} ... tail. *)
Fixpoint template (parts : list (string * string)) (tail : string) : string :=
  match parts with
  | [] => tail
  | (l, n) :: parts' =>
      l ++ String "{" (n ++ String "}" (template parts' tail))
  end.

(** Two placeholders at the same place: the same literal piece before them,
    free of opening braces; the name in the template free of closing
    braces; the name in the implemented path non-empty and free of closing
    braces. *)
Definition same_place (a b : string * string) : Prop :=
  fst a = fst b
  /\ Py.contains "{" (fst a) = false
  /\ Py.contains "}" (snd a) = false
  /\ snd b <> EmptyString
  /\ Py.contains "}" (snd b) = false.

(** The text as a list of literal tokens. *)
Fixpoint literals (s : string) : list token :=
  match s with
  | EmptyString => []
  | String c r => TLit c :: literals r
  end.

(** ** Two floats *)

(** The floats 1.0 and 100.0. *)
Definition FLOAT_ONE : spec_float := S754_finite false 4503599627370496 (-52).
Definition FLOAT_HUNDRED : spec_float :=
  S754_finite false 7036874417766400 (-46).

(* ===================================================================== *)
(** * Properties                                                           *)
(* ===================================================================== *)

(** ** Strings *)

Lemma sapp_nil_l (s : string) : EmptyString ++ s = s.
Proof. reflexivity. Qed.

Lemma sapp_cons (c : ascii) (a b : string) :
  String c a ++ b = String c (a ++ b).
Proof. reflexivity. Qed.

Lemma sapp_nil_r (s : string) : s ++ EmptyString = s.
Proof. induction s as [|c s IH]; [reflexivity|]. now rewrite sapp_cons, IH. Qed.

Lemma sapp_assoc (a b c : string) : (a ++ b) ++ c = a ++ (b ++ c).
Proof.
  induction a as [|x a IH]; [reflexivity|].
  now rewrite !sapp_cons, IH.
Qed.

Lemma slength_app (a b : string) :
  String.length (a ++ b) = String.length a + String.length b.
Proof.
  induction a as [|x a IH]; [reflexivity|].
  rewrite sapp_cons. simpl. now rewrite IH.
Qed.

Lemma contains_app (c : ascii) (a b : string) :
  Py.contains c (a ++ b) = Py.contains c a || Py.contains c b.
Proof.
  induction a as [|x a IH]; [reflexivity|].
  rewrite sapp_cons. simpl. rewrite IH. now rewrite orb_assoc.
Qed.

Lemma close_split (s : string) :
  Py.contains "}" s = true ->
  s = before_close s ++ String "}" (after_close s).
Proof.
  induction s as [|c s IH]; simpl; [discriminate|].
  destruct (Ascii.eqb_spec c "}") as [->|Hc]; simpl.
  - reflexivity.
  - intros H. rewrite sapp_cons. f_equal. now apply IH.
Qed.

Lemma before_close_clean (s : string) :
  Py.contains "}" (before_close s) = false.
Proof.
  induction s as [|c s IH]; simpl; [reflexivity|].
  destruct (Ascii.eqb_spec c "}") as [->|Hc]; simpl; [reflexivity|].
  rewrite IH. destruct (Ascii.eqb_spec c "}"); [contradiction|reflexivity].
Qed.

Lemma after_close_length (s : string) :
  String.length (after_close s) <= String.length s.
Proof.
  induction s as [|c s IH]; simpl; [lia|].
  destruct (Ascii.eqb c "}"); lia.
Qed.

Lemma before_after_unique (v r : string) :
  Py.contains "}" v = false ->
  before_close (v ++ String "}" r) = v /\ after_close (v ++ String "}" r) = r.
Proof.
  induction v as [|c v IH]; intros H.
  - rewrite sapp_nil_l. simpl. now split.
  - rewrite sapp_cons. simpl in *. apply orb_false_iff in H as [Hc Hv].
    rewrite Hc. destruct (IH Hv) as [-> ->]. now split.
Qed.

(** ** Tokens *)

Lemma skip_placeholder_after (s : string) :
  skip_placeholder s = tokens (after_close s).
Proof.
  induction s as [|c s IH]; simpl; [reflexivity|].
  destruct (Ascii.eqb c "}"); [reflexivity|exact IH].
Qed.

Lemma tokens_placeholder (r : string) :
  Py.contains "}" r = true ->
  tokens (String "{" r) = TWild :: tokens (after_close r).
Proof.
  intros H. simpl. rewrite H. simpl. now rewrite skip_placeholder_after.
Qed.

Lemma tokens_literal (c : ascii) (r : string) :
  Ascii.eqb c "{" && Py.contains "}" r = false ->
  tokens (String c r) = TLit c :: tokens r.
Proof. intros H. simpl. now rewrite H. Qed.

(** ** The engine on a run of characters that ends at a given character *)

Lemma rep_until {c : ascii} (k' k : cont) (v rest : string) (pos : nat)
  (g : caps) :
  (forall pos s g, k' pos s g = one (LITERAL c) k pos s g) ->
  Py.contains c v = false ->
  rep (NOT_LITERAL c) k' pos (v ++ String c rest) g
  = k (S (pos + String.length v)) rest g.
Proof.
  intros Hk. revert pos. induction v as [|a v IH]; intros pos H.
  - rewrite sapp_nil_l. simpl. rewrite Ascii.eqb_refl. simpl.
    rewrite Hk. simpl. rewrite Ascii.eqb_refl. f_equal. lia.
  - rewrite sapp_cons. simpl in H. apply orb_false_iff in H as [Ha Hv].
    simpl. rewrite Ha. simpl. rewrite (IH (S pos) Hv).
    replace (S (S pos + String.length v)) with (S (pos + S (String.length v)))
      by lia.
    destruct (k _ rest g); [reflexivity|].
    rewrite Hk. simpl. now rewrite Ha.
Qed.

Lemma rep_no_close {c : ascii} (k' k : cont) (t : string) (pos : nat)
  (g : caps) :
  (forall pos s g, k' pos s g = one (LITERAL c) k pos s g) ->
  Py.contains c t = false ->
  rep (NOT_LITERAL c) k' pos t g = None.
Proof.
  intros Hk. revert pos. induction t as [|a t IH]; intros pos H.
  - simpl. now rewrite Hk.
  - simpl in H. apply orb_false_iff in H as [Ha Ht].
    simpl. rewrite Ha. simpl. rewrite (IH (S pos) Ht).
    rewrite Hk. simpl. now rewrite Ha.
Qed.

Lemma exec_placeholder_nil (pos : nat) :
  exec PLACEHOLDER accept pos EmptyString [] = None.
Proof. reflexivity. Qed.

Lemma exec_placeholder_other (c : ascii) (t : string) (pos : nat) :
  Ascii.eqb c "{" = false ->
  exec PLACEHOLDER accept pos (String c t) [] = None.
Proof. intros H. simpl. now rewrite H. Qed.

Lemma exec_placeholder_open (t : string) (pos : nat) :
  Py.contains "}" t = false ->
  exec PLACEHOLDER accept pos (String "{" t) [] = None.
Proof.
  intros H. simpl.
  destruct t as [|c t]; [reflexivity|].
  simpl in H. apply orb_false_iff in H as [Hc Ht].
  simpl. rewrite Hc. simpl.
  now apply (rep_no_close _ accept).
Qed.

Lemma exec_placeholder_hit (c : ascii) (v rest : string) (pos : nat) :
  Py.contains "}" (String c v) = false ->
  exec PLACEHOLDER accept pos (String "{" (String c v ++ String "}" rest)) []
  = Some (mk_result (S (S (S (pos + String.length v)))) rest []).
Proof.
  intros H. simpl in H. apply orb_false_iff in H as [Hc Hv].
  rewrite sapp_cons. simpl. rewrite Hc. simpl.
  rewrite (rep_until _ accept v rest (S (S pos)) []); auto.
Qed.
(** ** [re.escape] *)

Lemma escape_cons (c : ascii) (r : string) :
  escape (String c r) = escape_char c ++ escape r.
Proof. unfold escape_char. simpl. now destruct (is_special c). Qed.

Lemma escape_app (a b : string) : escape (a ++ b) = escape a ++ escape b.
Proof.
  induction a as [|c a IH]; [reflexivity|].
  rewrite sapp_cons, !escape_cons, IH. now rewrite sapp_assoc.
Qed.

Lemma contains_close_escape (s : string) :
  Py.contains "}" (escape s) = Py.contains "}" s.
Proof.
  induction s as [|c s IH]; [reflexivity|].
  simpl. destruct (is_special c); simpl; now rewrite IH.
Qed.

Lemma special_open_brace (c : ascii) :
  is_special c = false -> Ascii.eqb c "{" = false.
Proof.
  intros H. destruct (Ascii.eqb_spec c "{") as [->|]; [discriminate|reflexivity].
Qed.

(** ** The first substitution of [match_endpoint] *)

Lemma sub_escape_from (n : nat) :
  forall (s : string) (fuel pos : nat),
    String.length s <= n ->
    String.length (escape s) < fuel ->
    sub_from fuel PLACEHOLDER PLACEHOLDER_REPL pos (escape s)
    = render (tokens s).
Proof.
  induction n as [n IHn] using lt_wf_ind.
  intros s fuel pos Hn Hfuel.
  destruct s as [|c r].
  - destruct fuel; [simpl in Hfuel; lia|reflexivity].
  - destruct (is_special c) eqn:Hsp.
    + (* an escaped character: the backslash is copied first *)
      assert (Hesc : escape (String c r) = String "\" (String c (escape r)))
        by (simpl; now rewrite Hsp).
      rewrite Hesc in *. simpl in Hfuel, Hn.
      destruct fuel as [|[|fuel]]; [lia|lia|].
      cbn [sub_from]. rewrite exec_placeholder_other by reflexivity.
      destruct (Ascii.eqb c "{" && Py.contains "}" r) eqn:Hph.
      * apply andb_true_iff in Hph as [Hc Hcl].
        apply Ascii.eqb_eq in Hc. subst c.
        rewrite (tokens_placeholder r Hcl).
        pose proof (close_split r Hcl) as Hsplit.
        pose proof (before_close_clean r) as Hclean.
        assert (Hr : escape r
                     = (escape (before_close r) ++ "\")
                       ++ String "}" (escape (after_close r))).
        { rewrite Hsplit at 1. rewrite escape_app, escape_cons.
          unfold escape_char. simpl. now rewrite sapp_assoc. }
        assert (Hv : Py.contains "}" (escape (before_close r) ++ "\") = false).
        { rewrite contains_app, contains_close_escape, Hclean. reflexivity. }
        destruct (escape (before_close r) ++ "\") as [|c0 v] eqn:Hbv.
        { destruct (escape (before_close r)); discriminate. }
        rewrite Hr, (exec_placeholder_hit c0 v _ _ Hv).
        cbn [r_end r_rest].
        replace (Nat.ltb (S pos) (S (S (S (S pos + String.length v)))))
          with true by (symmetry; apply Nat.ltb_lt; lia).
        pose proof (after_close_length r) as Hal.
        rewrite (IHn (String.length (after_close r))); try lia.
        -- reflexivity.
        -- rewrite Hr, slength_app in Hfuel. simpl in Hfuel. lia.
      * rewrite (tokens_literal c r Hph).
        assert (Hmiss : exec PLACEHOLDER accept (S pos)
                             (String c (escape r)) [] = None).
        { apply andb_false_iff in Hph as [Hc|Hcl].
          - now apply exec_placeholder_other.
          - destruct (Ascii.eqb_spec c "{") as [->|Hne].
            + apply exec_placeholder_open.
              now rewrite contains_close_escape.
            + apply exec_placeholder_other. now apply Ascii.eqb_neq. }
        cbn [sub_from]. rewrite Hmiss.
        rewrite (IHn (String.length r)); try lia.
        simpl. unfold escape_char. now rewrite Hsp.
    + (* a plain character *)
      assert (Hesc : escape (String c r) = String c (escape r))
        by (simpl; now rewrite Hsp).
      rewrite Hesc in *. simpl in Hfuel, Hn.
      destruct fuel as [|fuel]; [lia|].
      cbn [sub_from].
      rewrite exec_placeholder_other by now apply special_open_brace.
      rewrite (tokens_literal c r)
        by (now rewrite (special_open_brace c Hsp)).
      rewrite (IHn (String.length r)); try lia.
      simpl. unfold escape_char. now rewrite Hsp.
Qed.

Lemma sub_escape (s : string) :
  Re.sub PLACEHOLDER PLACEHOLDER_REPL (escape s) = render (tokens s).
Proof.
  unfold Re.sub. apply (sub_escape_from (String.length s)); lia.
Qed.
(** ** The second substitution: [str.replace] of a text by itself *)

Lemma startswith_drop (p s : string) :
  Py.startswith p s = true -> s = p ++ Py.drop (String.length p) s.
Proof.
  revert s. induction p as [|a p IH]; intros s H; [reflexivity|].
  destruct s as [|b s]; [discriminate|].
  simpl in H. apply andb_true_iff in H as [Hab Hp].
  apply Ascii.eqb_eq in Hab. subst b.
  rewrite sapp_cons. simpl. f_equal. now apply IH.
Qed.

Lemma replace_loop_same (old : string) (fuel : nat) (s : string) :
  Py.replace_loop fuel old old s = s.
Proof.
  revert s. induction fuel as [|fuel IH]; intros s; [reflexivity|].
  destruct s as [|c r]; [reflexivity|].
  cbn [Py.replace_loop].
  destruct (Py.startswith old (String c r)) eqn:Hp.
  - rewrite IH. symmetry. now apply startswith_drop.
  - now rewrite IH.
Qed.

Lemma intersperse_empty (s : string) : Py.intersperse EmptyString s = s.
Proof.
  induction s as [|c s IH]; [reflexivity|].
  simpl. rewrite sapp_nil_l. now rewrite IH.
Qed.

Lemma replace_same (old s : string) : Py.replace old old s = s.
Proof.
  destruct old as [|a old]; simpl.
  - apply intersperse_empty.
  - apply replace_loop_same.
Qed.

(** ** [re.compile] on the pattern text *)

Ltac all_chars c :=
  destruct c as [[] [] [] [] [] [] [] []].

Lemma quantified_safe (cs : cset) (s : string) :
  safe_head s = true ->
  quantified cs s = (Chr cs, s) /\ lazy_or_counted s = false.
Proof.
  destruct s as [|c s]; [now split|].
  all_chars c; intros H; try discriminate H; now split.
Qed.

Lemma special_not_alnum (c : ascii) :
  is_special c = true -> Py.is_ascii_alnum c = false.
Proof. all_chars c; intros H; try discriminate H; reflexivity. Qed.

Lemma unspecial_plain (c : ascii) :
  is_special c = false ->
  plain c = true /\ negb (Py.contains c "+*?{") = true
  /\ Ascii.eqb c "^" = false /\ Ascii.eqb c "$" = false
  /\ Ascii.eqb c "\" = false /\ Ascii.eqb c "[" = false.
Proof. all_chars c; intros H; try discriminate H; repeat split. Qed.

Lemma render_safe (ts : list token) : safe_head (render ts ++ "$") = true.
Proof.
  destruct ts as [|[c|] ts]; [reflexivity| |reflexivity].
  simpl. unfold escape_char. destruct (is_special c) eqn:Hsp; [reflexivity|].
  rewrite sapp_cons. simpl. now apply unspecial_plain.
Qed.

Lemma parse_S (fuel : nat) (s : string) :
  parse (S fuel) s =
  let item (cs : cset) (r : string) : option re :=
    let '(node, r') := quantified cs r in
    if lazy_or_counted r' then None
    else option_map (Seq node) (parse fuel r') in
  match s with
  | EmptyString => Some Eps
  | String c r =>
      if Ascii.eqb c "^" then option_map (Seq Bol) (parse fuel r)
      else if Ascii.eqb c "$" then option_map (Seq Eol) (parse fuel r)
      else if Ascii.eqb c "\" then
        match r with
        | String e r' =>
            if Py.is_ascii_alnum e then None else item (LITERAL e) r'
        | EmptyString => None
        end
      else if Ascii.eqb c "[" then
        match r with
        | String neg (String m (String close r')) =>
            if Ascii.eqb neg "^" && Ascii.eqb close "]"
               && negb (Ascii.eqb m "\" || Ascii.eqb m "]" || Ascii.eqb m "[")
            then item (NOT_LITERAL m) r' else None
        | _ => None
        end
      else if plain c then item (LITERAL c) r else None
  end.
Proof. reflexivity. Qed.

Lemma parse_item_safe (fuel : nat) (cs : cset) (r : string) :
  safe_head r = true ->
  (let '(node, r') := quantified cs r in
   if lazy_or_counted r' then None
   else option_map (Seq node) (parse fuel r'))
  = option_map (Seq (Chr cs)) (parse fuel r).
Proof.
  intros H. destruct (quantified_safe cs r H) as [-> ->]. reflexivity.
Qed.

Lemma parse_render (ts : list token) :
  forall fuel : nat,
    String.length (render ts ++ "$") < fuel ->
    parse fuel (render ts ++ "$") = Some (nodes ts (Seq Eol Eps)).
Proof.
  induction ts as [|[c|] ts IH]; intros fuel Hfuel.
  - destruct fuel as [|[|fuel]]; simpl in Hfuel; try lia. reflexivity.
  - simpl in *. unfold escape_char in *.
    destruct (is_special c) eqn:Hsp.
    + rewrite !sapp_cons, sapp_nil_l in *. simpl in Hfuel.
      destruct fuel as [|fuel]; [lia|].
      rewrite parse_S. cbv zeta. simpl.
      rewrite (special_not_alnum c Hsp).
      rewrite (parse_item_safe fuel _ _ (render_safe ts)).
      rewrite IH by lia. reflexivity.
    + rewrite !sapp_cons, sapp_nil_l in *. simpl in Hfuel.
      destruct fuel as [|fuel]; [lia|].
      rewrite parse_S. cbv zeta.
      destruct (unspecial_plain c Hsp) as (-> & _ & -> & -> & -> & ->).
      rewrite (parse_item_safe fuel _ _ (render_safe ts)).
      rewrite IH by lia. reflexivity.
  - simpl in *. rewrite !sapp_cons, sapp_nil_l in *. simpl in Hfuel.
    destruct fuel as [|[|[|fuel]]]; try lia.
    rewrite parse_S. cbv zeta. simpl.
    rewrite (parse_item_safe fuel _ _ (render_safe ts)).
    rewrite IH by lia. reflexivity.
Qed.

Lemma compile_render (ts : list token) :
  compile ("^" ++ render ts ++ "$")
  = Some (Seq Bol (nodes ts (Seq Eol Eps))).
Proof.
  unfold compile. rewrite sapp_cons, sapp_nil_l.
  change (parse (S (String.length (String "^" (render ts ++ "$"))))
                (String "^" (render ts ++ "$")))
    with (option_map (Seq Bol)
            (parse (S (String.length (render ts ++ "$")))
                   (render ts ++ "$"))).
  rewrite parse_render by lia. reflexivity.
Qed.
(** ** The compiled pattern against an implemented path *)

Lemma exec_nodes (ts : list token) :
  forall (pos : nat) (p : string) (g : caps),
    is_Some (exec (nodes ts (Seq Eol Eps)) accept pos p g)
    <-> exists q r, p = q ++ r /\ tokens_match braced ts q
                    /\ at_end r = true.
Proof.
  induction ts as [|[c|] ts IH]; intros pos p g.
  - simpl. split.
    + intros H. exists EmptyString, p. split; [reflexivity|].
      split; [constructor|]. destruct (at_end p); [reflexivity|].
      now destruct H.
    + intros (q & r & -> & Hq & Hr). inversion Hq; subst.
      rewrite sapp_nil_l, Hr. now eexists.
  - cbn [nodes exec]. split.
    + intros H. destruct p as [|a p]; [now destruct H|].
      simpl in H. destruct (Ascii.eqb_spec a c) as [->|]; [|now destruct H].
      apply IH in H as (q & r & -> & Hq & Hr).
      exists (String c q), r. rewrite sapp_cons.
      split; [reflexivity|]. split; [now constructor|exact Hr].
    + intros (q & r & -> & Hq & Hr). inversion Hq; subst.
      rewrite sapp_cons. simpl. rewrite Ascii.eqb_refl.
      apply IH. eauto.
  - cbn [nodes exec]. split.
    + intros H. destruct p as [|a p]; [now destruct H|].
      simpl in H. destruct (Ascii.eqb_spec a "{") as [->|]; [|now destruct H].
      destruct p as [|c1 t]; [now destruct H|].
      simpl in H. destruct (Ascii.eqb c1 "}") eqn:Hc1; [now destruct H|].
      simpl in H.
      destruct (Py.contains "}" t) eqn:Hcl.
      * rewrite (close_split t Hcl) in H.
        rewrite (rep_until _ (exec (nodes ts (Seq Eol Eps)) accept)) in H;
          [|reflexivity|apply before_close_clean].
        apply IH in H as (q & r & Hqr & Hq & Hr).
        exists (String "{" (String c1 (before_close t) ++ "}") ++ q), r.
        split; [|split; [|exact Hr]].
        -- rewrite (close_split t Hcl) at 1. rewrite Hqr.
           rewrite !sapp_cons. do 2 f_equal.
           rewrite !sapp_assoc. f_equal.
        -- constructor; [|exact Hq].
           exists (String c1 (before_close t)).
           split; [reflexivity|]. split; [discriminate|].
           simpl. rewrite Hc1. apply before_close_clean.
      * rewrite (rep_no_close _ (exec (nodes ts (Seq Eol Eps)) accept)) in H;
          [now destruct H|reflexivity|exact Hcl].
    + intros (q & r & -> & Hq & Hr). inversion Hq as [| |v ts' q' Hv Hq']; subst.
      destruct Hv as (name & -> & Hne & Hclean).
      destruct name as [|c1 n]; [contradiction|].
      simpl in Hclean. apply orb_false_iff in Hclean as [Hc1 Hn].
      rewrite !sapp_cons, !sapp_assoc, !sapp_cons, sapp_nil_l.
      simpl. rewrite Hc1. simpl.
      rewrite (rep_until _ (exec (nodes ts (Seq Eol Eps)) accept));
        [|reflexivity|exact Hn].
      apply IH. eauto.
Qed.

Lemma at_end_cases (r : string) :
  at_end r = true <-> r = EmptyString \/ r = String "010" EmptyString.
Proof.
  destruct r as [|c [|d r]]; simpl.
  - split; auto.
  - split.
    + intros H. apply Ascii.eqb_eq in H. subst. now right.
    + intros [H|H]; [discriminate|]. injection H as ->. reflexivity.
  - split; [discriminate|]. intros [H|H]; discriminate.
Qed.

Lemma re_match_nodes (ts : list token) (p : string) :
  is_Some (re_match (Seq Bol (nodes ts (Seq Eol Eps))) p)
  <-> exists q, tokens_match braced ts q
                /\ (p = q \/ p = q ++ String "010" EmptyString).
Proof.
  unfold re_match. cbn [exec Nat.eqb]. rewrite exec_nodes. split.
  - intros (q & r & -> & Hq & Hr). exists q. split; [exact Hq|].
    apply at_end_cases in Hr as [->| ->]; [left|right]; auto.
    now rewrite sapp_nil_r.
  - intros (q & Hq & [->| ->]).
    + exists q, EmptyString. rewrite sapp_nil_r. auto.
    + exists q, (String "010" EmptyString). auto.
Qed.

(** ** [match_endpoint] *)

Lemma any_match_iff (regex : re) (implemented : gset string) :
  any_match regex implemented = true
  <-> exists p, p ∈ implemented /\ is_Some (re_match regex p).
Proof.
  unfold any_match. rewrite existsb_exists. split.
  - intros (p & Hin & Hp). exists p. split.
    + apply elem_of_elements. now apply list_elem_of_In.
    + now apply bool_decide_eq_true in Hp.
  - intros (p & Hin & Hp). exists p. split.
    + apply list_elem_of_In. now apply elem_of_elements.
    + now apply bool_decide_eq_true.
Qed.

(** The structural fallback as one equation: the pattern is compiled for
    every path template, so [match_endpoint] always returns. *)
Lemma match_endpoint_eq (ep_path : string) (implemented : gset string) :
  match_endpoint ep_path implemented
  = Some (bool_decide (ep_path ∈ implemented)
          || any_match (Seq Bol (nodes (tokens ep_path) (Seq Eol Eps)))
                       implemented).
Proof.
  unfold match_endpoint, normalise_openapi_path.
  destruct (bool_decide (ep_path ∈ implemented)); [reflexivity|].
  rewrite sub_escape, replace_same, compile_render. reflexivity.
Qed.

Lemma match_endpoint_fallback (ep_path : string) (implemented : gset string) :
  ep_path ∉ implemented ->
  (match_endpoint ep_path implemented = Some true
   <-> exists p q, p ∈ implemented
                   /\ tokens_match braced (tokens ep_path) q
                   /\ (p = q \/ p = q ++ String "010" EmptyString)).
Proof.
  intros Hnot. rewrite match_endpoint_eq.
  rewrite bool_decide_eq_false_2 by exact Hnot. simpl.
  split.
  - intros H. injection H as H. apply any_match_iff in H as (p & Hin & Hp).
    apply re_match_nodes in Hp as (q & Hq & Hpq). eauto.
  - intros (p & q & Hin & Hq & Hpq). f_equal. apply any_match_iff.
    exists p. split; [exact Hin|]. apply re_match_nodes. eauto.
Qed.

Lemma match_endpoint_covers (ep_path : string) (implemented : gset string) :
  match_endpoint ep_path implemented = Some (covers implemented ep_path).
Proof. apply match_endpoint_eq. Qed.

Lemma ends_with_newline_app (q : string) :
  ends_with_newline (q ++ String "010" EmptyString) = true.
Proof.
  induction q as [|c q IH]; [reflexivity|].
  rewrite sapp_cons. simpl. rewrite IH.
  destruct (q ++ String "010" EmptyString) eqn:E; [|reflexivity].
  destruct q; discriminate.
Qed.

Lemma covers_fallback (ep_path : string) (implemented : gset string) :
  ep_path ∉ implemented ->
  (forall p, p ∈ implemented -> ends_with_newline p = false) ->
  (covers implemented ep_path = true
   <-> exists p, p ∈ implemented /\ tokens_match braced (tokens ep_path) p).
Proof.
  intros Hnot Hnl.
  pose proof (match_endpoint_fallback ep_path implemented Hnot) as H.
  rewrite match_endpoint_covers in H. split.
  - intros Hc. destruct H as [H _].
    destruct (H (f_equal Some Hc)) as (p & q & Hin & Hq & [->|Hp]).
    + eauto.
    + exfalso. specialize (Hnl p Hin). rewrite Hp in Hnl.
      rewrite ends_with_newline_app in Hnl. discriminate.
  - intros (p & Hin & Hp). destruct H as [_ H].
    assert (Some (covers implemented ep_path) = Some true) as Heq
      by (apply H; exists p, p; auto).
    now injection Heq.
Qed.

(** C1 (amended).  For a path template with no exact match in the
    implemented set, whose members do not end in a newline character,
    [match_endpoint] returns, and it returns true if and only if some member
    of the implemented set matches the token sequence of the template from
    its first to its last character, where a placeholder of the template
    takes a brace-wrapped placeholder with a non-empty name free of closing
    braces, and every other character takes itself. *)
Theorem match_endpoint_structural
  (ep_path : string) (implemented : gset string) :
  ep_path ∉ implemented ->
  (forall p, p ∈ implemented -> ends_with_newline p = false) ->
  exists covered : bool,
    match_endpoint ep_path implemented = Some covered
    /\ (covered = true
        <-> exists p, p ∈ implemented
                      /\ tokens_match braced (tokens ep_path) p).
Proof.
  intros Hnot Hnl. exists (covers implemented ep_path).
  split; [apply match_endpoint_covers|now apply covers_fallback].
Qed.

Lemma match_endpoint_structural_witness :
  exists covered : bool,
    match_endpoint "/v1/voices/{voice_id}" {["/v1/voices/{id}"]}
    = Some covered
    /\ (covered = true
        <-> exists p, p ∈ ({["/v1/voices/{id}"]} : gset string)
                      /\ tokens_match braced
                           (tokens "/v1/voices/{voice_id}") p).
Proof.
  apply match_endpoint_structural.
  - intros H. apply elem_of_singleton in H. discriminate H.
  - intros p H. apply elem_of_singleton in H. subst p. reflexivity.
Defined.

(** C1, as the specification words it, fails: a concrete segment is a
    segment value with no slash in it, yet the template is not covered. *)
Lemma match_endpoint_segment_value_counterexample :
  ("/v1/voices/{voice_id}" ∉ ({["/v1/voices/fixed-value"]} : gset string))
  /\ (exists p, p ∈ ({["/v1/voices/fixed-value"]} : gset string)
                /\ tokens_match segment_value
                     (tokens "/v1/voices/{voice_id}") p)
  /\ match_endpoint "/v1/voices/{voice_id}" {["/v1/voices/fixed-value"]}
     = Some false.
Proof.
  split; [|split].
  - intros H. apply elem_of_singleton in H. discriminate H.
  - exists "/v1/voices/fixed-value". split; [now apply elem_of_singleton|].
    change (tokens "/v1/voices/{voice_id}")
      with (map TLit (list_ascii_of_string "/v1/voices/") ++ [TWild])%list.
    simpl. repeat apply tm_lit.
    apply (tm_wild segment_value "fixed-value" [] EmptyString).
    + split; [discriminate|reflexivity].
    + constructor.
  - vm_compute. reflexivity.
Qed.
(** ** The classification loop and the figures of the report *)

Lemma for_each_classify (implemented : gset string) (active : list endpoint) :
  forall covered missing : list endpoint,
    for_each (classify implemented) active (covered, missing)
    = Some ((covered
             ++ List.filter (fun ep => covers implemented (ep_path ep)) active)%list,
            (missing
             ++ List.filter (fun ep => negb (covers implemented (ep_path ep)))
                  active)%list).
Proof.
  induction active as [|ep active IH]; intros covered missing.
  - simpl. now rewrite !app_nil_r.
  - simpl. rewrite match_endpoint_covers.
    destruct (covers implemented (ep_path ep)); simpl.
    + rewrite IH. now rewrite <- app_assoc.
    + rewrite IH. now rewrite <- app_assoc.
Qed.

Lemma percentage_pct_of (covered_count total_active : Z) :
  percentage covered_count total_active
  = Some (pct_of covered_count total_active).
Proof.
  unfold percentage, pct_of, int_truediv.
  destruct (total_active =? 0)%Z; reflexivity.
Qed.

Lemma filter_active (endpoints : list endpoint) :
  List.filter (fun ep => negb (bool_decide (ep_path ep ∈ EXCLUDED_PATHS)))
    (List.filter (fun ep => negb (ep_deprecated ep)) endpoints)
  = List.filter is_active endpoints.
Proof.
  induction endpoints as [|ep l IH]; [reflexivity|].
  simpl. unfold is_active at 1.
  destruct (ep_deprecated ep); simpl; [exact IH|].
  destruct (bool_decide (ep_path ep ∈ EXCLUDED_PATHS)); simpl; now rewrite IH.
Qed.

(** [coverage] never raises, and its report is a function of the inputs. *)
Lemma coverage_eq (endpoints : list endpoint) (implemented : gset string) :
  let active := List.filter is_active endpoints in
  let covered :=
    List.filter (fun ep => covers implemented (ep_path ep)) active in
  let missing :=
    List.filter (fun ep => negb (covers implemented (ep_path ep))) active in
  coverage endpoints implemented
  = Some (mk_report endpoints active
            (List.filter (fun ep => ep_deprecated ep) endpoints)
            covered missing
            (Z.of_nat (length active)) (Z.of_nat (length covered))
            (pct_of (Z.of_nat (length covered)) (Z.of_nat (length active)))).
Proof.
  intros active covered missing. unfold coverage.
  rewrite filter_active. fold active.
  rewrite for_each_classify. simpl.
  fold covered. fold missing.
  rewrite percentage_pct_of. reflexivity.
Qed.

Lemma filter_is_active_idem (P : endpoint -> bool) (endpoints : list endpoint) :
  (forall ep, is_active ep = true -> P ep = true) ->
  List.filter is_active (List.filter P endpoints)
  = List.filter is_active endpoints.
Proof.
  intros HP. induction endpoints as [|ep l IH]; [reflexivity|].
  simpl. destruct (P ep) eqn:E; simpl.
  - now rewrite IH.
  - destruct (is_active ep) eqn:A; [|exact IH].
    apply HP in A. congruence.
Qed.

(** ** Floats that are no negative numbers *)

Lemma binary_round_aux_sign (mx ex : Z) (lx : location) :
  sign_clear (binary_round_aux prec emax false mx ex lx) = true.
Proof.
  unfold binary_round_aux.
  destruct (shr_fexp prec emax mx ex lx) as [mrs e].
  destruct (shr_fexp prec emax _ e loc_Exact) as [mrs' e'].
  destruct (shr_m mrs'); [reflexivity| |reflexivity].
  now destruct (Z.leb e' (emax - prec)).
Qed.

Lemma float_of_int_sign (z : Z) :
  (0 <= z)%Z -> sign_clear (float_of_int z) = true.
Proof.
  intros H. unfold float_of_int, binary_normalize.
  destruct z as [|m|m]; [reflexivity| |lia].
  unfold binary_round.
  destruct (shl_align m 0 _) as [mz ez]. apply binary_round_aux_sign.
Qed.

Lemma SFdiv_sign (x y : spec_float) :
  sign_clear x = true -> sign_clear y = true ->
  sign_clear (SFdiv prec emax x y) = true.
Proof.
  destruct x as [sx|sx| |sx mx ex], y as [sy|sy| |sy my ey];
    simpl; intros Hx Hy; try reflexivity;
    apply negb_true_iff in Hx; apply negb_true_iff in Hy; subst;
    try reflexivity.
  destruct (SFdiv_core_binary prec emax (Z.pos mx) ex (Z.pos my) ey)
    as [[mz ez] lz].
  apply binary_round_aux_sign.
Qed.

Lemma SFmul_sign (x y : spec_float) :
  sign_clear x = true -> sign_clear y = true ->
  sign_clear (SFmul prec emax x y) = true.
Proof.
  destruct x as [sx|sx| |sx mx ex], y as [sy|sy| |sy my ey];
    simpl; intros Hx Hy; try reflexivity;
    apply negb_true_iff in Hx; apply negb_true_iff in Hy; subst;
    try reflexivity.
  apply binary_round_aux_sign.
Qed.

Lemma pct_of_sign (c a : Z) :
  (0 <= c)%Z -> (0 <= a)%Z -> sign_clear (to_float (pct_of c a)) = true.
Proof.
  intros Hc Ha. unfold pct_of.
  destruct (a =? 0)%Z; [reflexivity|].
  simpl. unfold float_mul_int.
  apply SFmul_sign; [apply SFdiv_sign|]; now apply float_of_int_sign.
Qed.

Lemma SFltb_zero (f : spec_float) :
  sign_clear f = true -> SFltb f (S754_zero false) = false.
Proof. destruct f as [s|s| |s m e]; try destruct s; now simpl. Qed.

Lemma SFcompare_refl (f : spec_float) :
  SFcompare f f = Some Eq \/ SFcompare f f = None.
Proof.
  destruct f as [s|s| |s m e]; simpl; auto.
  - destruct s; auto.
  - left. rewrite Z.compare_refl.
    assert (Pos.compare_cont Eq m m = Eq) as ->
      by (apply Pos.compare_cont_refl).
    now destruct s.
Qed.

Lemma SFltb_irrefl (f : spec_float) : SFltb f f = false.
Proof. unfold SFltb. now destruct (SFcompare_refl f) as [-> | ->]. Qed.

Lemma SFeqb_not_ltb (x y : spec_float) :
  SFeqb x y = true -> SFltb x y = false.
Proof.
  unfold SFeqb, SFltb. now destruct (SFcompare x y) as [[| |]|].
Qed.
(** ** Claims on the matcher *)

Lemma covers_exact (ep_path : string) (implemented : gset string) :
  ep_path ∈ implemented -> covers implemented ep_path = true.
Proof.
  intros H. unfold covers. now rewrite bool_decide_eq_true_2.
Qed.

Lemma covers_structural (ep_path p : string) (implemented : gset string) :
  p ∈ implemented -> tokens_match braced (tokens ep_path) p ->
  covers implemented ep_path = true.
Proof.
  intros Hin Hp. unfold covers. apply orb_true_iff. right.
  apply any_match_iff. exists p. split; [exact Hin|].
  apply re_match_nodes. exists p. auto.
Qed.

Lemma coverage_single (ep : endpoint) (implemented : gset string) :
  is_active ep = true ->
  exists r, coverage [ep] implemented = Some r
            /\ rp_covered r
               = (if covers implemented (ep_path ep) then [ep] else [])
            /\ rp_missing r
               = (if covers implemented (ep_path ep) then [] else [ep]).
Proof.
  intros Ha. eexists. split; [apply coverage_eq|].
  simpl. rewrite Ha. simpl.
  now destruct (covers implemented (ep_path ep)).
Qed.

(** C2.  Structural matching does not look at placeholder names: the
    template /v1/voices/{voice_id} is covered by every implemented set that
    contains /v1/voices/{id}, and an active descriptor with that template is
    classified covered; against the set that holds only
    /v1/voices/fixed-value it is missing. *)
Theorem placeholder_name_agnostic
  (implemented : gset string) (method : string) (operation_id : json) :
  "/v1/voices/{id}" ∈ implemented ->
  let ep := mk_endpoint method "/v1/voices/{voice_id}" operation_id false in
  (match_endpoint "/v1/voices/{voice_id}" implemented = Some true
   /\ exists r, coverage [ep] implemented = Some r
                /\ rp_covered r = [ep] /\ rp_missing r = [])
  /\ (match_endpoint "/v1/voices/{voice_id}" {["/v1/voices/fixed-value"]}
      = Some false
      /\ exists r, coverage [ep] {["/v1/voices/fixed-value"]} = Some r
                   /\ rp_covered r = [] /\ rp_missing r = [ep]).
Proof.
  intros Hin ep.
  assert (Hcov : covers implemented "/v1/voices/{voice_id}" = true).
  { apply (covers_structural _ "/v1/voices/{id}"); [exact Hin|].
    change (tokens "/v1/voices/{voice_id}")
      with (map TLit (list_ascii_of_string "/v1/voices/") ++ [TWild])%list.
    simpl. repeat apply tm_lit.
    apply (tm_wild braced "{id}" [] EmptyString); [|constructor].
    exists "id". repeat split. discriminate. }
  assert (Hmiss : covers {["/v1/voices/fixed-value"]} "/v1/voices/{voice_id}"
                  = false) by (vm_compute; reflexivity).
  split; split.
  - now rewrite match_endpoint_covers, Hcov.
  - destruct (coverage_single ep implemented eq_refl) as (r & Hr & Hc & Hm).
    exists r. cbn [ep_path ep] in Hc, Hm. rewrite Hcov in Hc, Hm. auto.
  - now rewrite match_endpoint_covers, Hmiss.
  - destruct (coverage_single ep {["/v1/voices/fixed-value"]} eq_refl)
      as (r & Hr & Hc & Hm).
    exists r. cbn [ep_path ep] in Hc, Hm. rewrite Hmiss in Hc, Hm. auto.
Qed.

Lemma placeholder_name_agnostic_witness :
  let ep := mk_endpoint "GET" "/v1/voices/{voice_id}" (JStr "get_voice") false in
  (match_endpoint "/v1/voices/{voice_id}" {["/v1/voices/{id}"]} = Some true
   /\ exists r, coverage [ep] {["/v1/voices/{id}"]} = Some r
                /\ rp_covered r = [ep] /\ rp_missing r = [])
  /\ (match_endpoint "/v1/voices/{voice_id}" {["/v1/voices/fixed-value"]}
      = Some false
      /\ exists r, coverage [ep] {["/v1/voices/fixed-value"]} = Some r
                   /\ rp_covered r = [] /\ rp_missing r = [ep]).
Proof.
  apply (placeholder_name_agnostic {["/v1/voices/{id}"]} "GET"
           (JStr "get_voice")).
  apply elem_of_singleton. reflexivity.
Defined.

Lemma split_no_sep (sep : ascii) (s : string) :
  Py.contains sep s = false -> Py.split sep s = [s].
Proof.
  induction s as [|c s IH]; [reflexivity|].
  simpl. intros H. apply orb_false_iff in H as [Hc Hs].
  rewrite Hc, (IH Hs). reflexivity.
Qed.

Lemma normalise_path_plain (raw : string) :
  Py.contains "?" raw = false -> normalise_path raw = Some raw.
Proof.
  intros H. unfold normalise_path, Py.item0. now rewrite split_no_sep.
Qed.

Lemma py_or_some (s : string) (b : option string) :
  Py.nonempty s = true -> py_or (Some s) b = Some s.
Proof. intros H. unfold py_or. now rewrite H. Qed.

(** ** Claims on the aggregation *)

Lemma is_active_not_deprecated (ep : endpoint) :
  is_active ep = true -> ep_deprecated ep = false.
Proof.
  unfold is_active. intros H. apply andb_true_iff in H as [H _].
  now apply negb_true_iff in H.
Qed.

Lemma is_active_not_excluded (ep : endpoint) :
  is_active ep = true -> ep_path ep ∉ EXCLUDED_PATHS.
Proof.
  unfold is_active. intros H. apply andb_true_iff in H as [_ H].
  apply negb_true_iff in H. now apply bool_decide_eq_false in H.
Qed.

Lemma Forall_filter_sub {A : Type} (P : A -> Prop) (f : A -> bool)
  (l : list A) :
  Forall P l -> Forall P (List.filter f l).
Proof.
  intros H. apply List.Forall_forall. intros x Hx.
  apply filter_In in Hx as [Hx _].
  now apply (proj1 (List.Forall_forall P l) H).
Qed.

Lemma Forall_active (P : endpoint -> Prop) (endpoints : list endpoint) :
  (forall ep, is_active ep = true -> P ep) ->
  Forall P (List.filter is_active endpoints).
Proof.
  intros H. apply List.Forall_forall. intros ep Hep.
  apply filter_In in Hep as [_ Hep]. now apply H.
Qed.

(** C6.  Deprecated descriptors are kept in a list of their own and take
    no part in the classification: the covered and missing lists, both
    counts and the percentage are those of the descriptor list with the
    deprecated ones removed, whatever the implemented set holds, and no
    endpoint in covered or missing is deprecated. *)
Theorem deprecated_not_counted
  (endpoints : list endpoint) (implemented : gset string) :
  exists r r',
    coverage endpoints implemented = Some r
    /\ coverage (List.filter (fun ep => negb (ep_deprecated ep)) endpoints)
                implemented = Some r'
    /\ rp_covered r = rp_covered r' /\ rp_missing r = rp_missing r'
    /\ rp_covered_count r = rp_covered_count r'
    /\ rp_total_active r = rp_total_active r'
    /\ rp_pct r = rp_pct r'
    /\ rp_deprecated r = List.filter (fun ep => ep_deprecated ep) endpoints
    /\ Forall (fun ep => ep_deprecated ep = false)
              (rp_active r ++ rp_covered r ++ rp_missing r)%list.
Proof.
  do 2 eexists.
  split; [apply coverage_eq|]. split; [apply coverage_eq|].
  cbn [rp_covered rp_missing rp_covered_count rp_total_active rp_pct
       rp_deprecated rp_active].
  rewrite (filter_is_active_idem (fun ep => negb (ep_deprecated ep)))
    by (intros ep H; now rewrite (is_active_not_deprecated ep H)).
  repeat (split; [reflexivity|]).
  rewrite !List.Forall_app.
  assert (Ha : Forall (fun ep => ep_deprecated ep = false)
                      (List.filter is_active endpoints))
    by (apply Forall_active, is_active_not_deprecated).
  split; [exact Ha|]. split; now apply Forall_filter_sub.
Qed.

(** C7.  [coverage] always returns a report; its percentage is computed
    from the length of the covered list and the length of the active list:
    the integer 0 when there is no active endpoint, and otherwise the float
    quotient of the two counts multiplied by 100.  The guarded expression
    never raises, for any pair of counts. *)
Theorem percentage_guarded
  (endpoints : list endpoint) (implemented : gset string)
  (covered_count total_active : Z) :
  (exists r,
     coverage endpoints implemented = Some r
     /\ rp_covered_count r = Z.of_nat (length (rp_covered r))
     /\ rp_total_active r = Z.of_nat (length (rp_active r))
     /\ percentage (rp_covered_count r) (rp_total_active r)
        = Some (rp_pct r))
  /\ percentage covered_count total_active
     = Some (if (total_active =? 0)%Z then PyInt 0
             else PyFloat
                    (SFmul prec emax
                       (SFdiv prec emax (float_of_int covered_count)
                              (float_of_int total_active))
                       (float_of_int 100)))
  /\ percentage covered_count 0 = Some (PyInt 0).
Proof.
  split; [|split].
  - eexists. split; [apply coverage_eq|].
    cbn [rp_covered_count rp_total_active rp_covered rp_active rp_pct].
    repeat split. apply percentage_pct_of.
  - apply percentage_pct_of.
  - reflexivity.
Qed.

(** ** Claims on the threshold gate and the exclusion rule *)

Lemma main_reaches_gate (doc : json) (rs_files : list rs_file)
  (endpoints : list endpoint) (implemented : gset string) (r : report)
  (env : threshold_env) :
  parse_openapi doc = Some endpoints ->
  scan_services rs_files = Some implemented ->
  coverage endpoints implemented = Some r ->
  main (SpecLoaded doc) (Some rs_files) env = gate r env.
Proof.
  intros Hp Hs Hc. unfold main.
  change (Some doc ≫= _)
    with (parse_openapi doc ≫= fun endpoints =>
            scan_services rs_files ≫= fun implemented =>
              coverage endpoints implemented).
  rewrite Hp. cbn [mbind option_bind]. rewrite Hs. cbn [mbind option_bind].
  now rewrite Hc.
Qed.

Lemma coverage_pct_sign (endpoints : list endpoint)
  (implemented : gset string) (r : report) :
  coverage endpoints implemented = Some r ->
  sign_clear (to_float (rp_pct r)) = true.
Proof.
  intros Hcov. rewrite coverage_eq in Hcov. injection Hcov as <-.
  cbn [rp_pct]. apply pct_of_sign; lia.
Qed.

Lemma SFltb_any_zero (f t : spec_float) :
  sign_clear f = true -> SFeqb t (S754_zero false) = true ->
  SFltb f t = false.
Proof.
  intros Hf Ht.
  destruct t as [s'|s'| |s' m' e']; try destruct s'; try discriminate Ht;
    destruct f as [s|s| |s m e]; try reflexivity;
    simpl in Hf; apply negb_true_iff in Hf; subst; reflexivity.
Qed.

(** C8.  A run that gets as far as the report prints it and then ends with
    status 1 exactly when the percentage is strictly below the threshold;
    a percentage equal to the threshold passes; and a threshold of 0, which
    is the default when the variable is unset, always passes. *)
Theorem threshold_gate
  (doc : json) (rs_files : list rs_file) (endpoints : list endpoint)
  (implemented : gset string) (r : report)
  (env : threshold_env) (threshold : spec_float) :
  parse_openapi doc = Some endpoints ->
  scan_services rs_files = Some implemented ->
  coverage endpoints implemented = Some r ->
  read_threshold env = Some threshold ->
  let run := main (SpecLoaded doc) (Some rs_files) env in
  o_report run = Some r
  /\ (exit_code (o_status run) = 1%Z <-> num_lt (rp_pct r) threshold = true)
  /\ (exit_code (o_status run) = 0%Z <-> num_lt (rp_pct r) threshold = false)
  /\ (SFeqb (to_float (rp_pct r)) threshold = true -> o_status run = Done)
  /\ (SFeqb threshold (S754_zero false) = true -> o_status run = Done)
  /\ read_threshold Unset = Some (S754_zero false).
Proof.
  intros Hp Hs Hcov Hth run. unfold run.
  rewrite (main_reaches_gate _ _ _ _ _ env Hp Hs Hcov).
  pose proof (coverage_pct_sign _ _ _ Hcov) as Hsign.
  unfold gate. rewrite Hth.
  split; [now destruct (num_lt (rp_pct r) threshold)|].
  split; [destruct (num_lt (rp_pct r) threshold); simpl; split;
          congruence|].
  split; [destruct (num_lt (rp_pct r) threshold); simpl; split;
          congruence|].
  split; [|split; [|reflexivity]].
  - intros E. unfold num_lt. now rewrite (SFeqb_not_ltb _ _ E).
  - intros E. unfold num_lt. now rewrite (SFltb_any_zero _ _ Hsign E).
Qed.

Lemma threshold_gate_witness :
  let doc :=
    JDict [("paths", JDict [("/v1/voices", JDict [("get", JDict [])])])] in
  let ep := mk_endpoint "GET" "/v1/voices" (JStr "") false in
  let r := mk_report [ep] [ep] [] [] [ep] 1 0 (PyFloat (S754_zero false)) in
  let run := main (SpecLoaded doc) (Some []) (SetTo (float_of_int 50)) in
  o_report run = Some r
  /\ (exit_code (o_status run) = 1%Z
      <-> num_lt (rp_pct r) (float_of_int 50) = true)
  /\ (exit_code (o_status run) = 0%Z
      <-> num_lt (rp_pct r) (float_of_int 50) = false)
  /\ (SFeqb (to_float (rp_pct r)) (float_of_int 50) = true
      -> o_status run = Done)
  /\ (SFeqb (float_of_int 50) (S754_zero false) = true -> o_status run = Done)
  /\ read_threshold Unset = Some (S754_zero false).
Proof.
  intros doc ep r.
  apply (threshold_gate doc [] [ep] ∅ r (SetTo (float_of_int 50))
           (float_of_int 50)).
  - vm_compute. reflexivity.
  - reflexivity.
  - vm_compute. reflexivity.
  - reflexivity.
Defined.

(** C9.  A descriptor on an excluded path (the set holds /docs) takes no
    part in the classification, deprecated or not: the covered and missing
    lists, the counts and the percentage are those of the descriptor list
    with the excluded paths removed, and no endpoint in active, covered or
    missing has an excluded path. *)
Theorem excluded_never_classified
  (endpoints : list endpoint) (implemented : gset string) :
  exists r r',
    coverage endpoints implemented = Some r
    /\ coverage
         (List.filter
            (fun ep => negb (bool_decide (ep_path ep ∈ EXCLUDED_PATHS)))
            endpoints)
         implemented = Some r'
    /\ rp_active r = rp_active r'
    /\ rp_covered r = rp_covered r' /\ rp_missing r = rp_missing r'
    /\ rp_covered_count r = rp_covered_count r'
    /\ rp_total_active r = rp_total_active r'
    /\ rp_pct r = rp_pct r'
    /\ Forall (fun ep => ep_path ep ∉ EXCLUDED_PATHS)
              (rp_active r ++ rp_covered r ++ rp_missing r)%list
    /\ "/docs" ∈ EXCLUDED_PATHS.
Proof.
  do 2 eexists.
  split; [apply coverage_eq|]. split; [apply coverage_eq|].
  cbn [rp_covered rp_missing rp_covered_count rp_total_active rp_pct
       rp_active].
  rewrite (filter_is_active_idem
             (fun ep => negb (bool_decide (ep_path ep ∈ EXCLUDED_PATHS)))).
  2:{ intros ep H. apply is_active_not_excluded in H.
      now rewrite bool_decide_eq_false_2. }
  repeat (split; [reflexivity|]).
  split; [|now apply elem_of_singleton].
  rewrite !List.Forall_app.
  assert (Ha : Forall (fun ep => ep_path ep ∉ EXCLUDED_PATHS)
                      (List.filter is_active endpoints))
    by (apply Forall_active, is_active_not_excluded).
  split; [exact Ha|]. split; now apply Forall_filter_sub.
Qed.

(** C10.  The classification does not look at the HTTP method: an active
    descriptor is covered exactly when [covers], a function of the
    implemented set and the path template alone, is true, and missing
    otherwise; so two active descriptors with the same path template are
    classified alike, whatever their methods. *)
Theorem matching_ignores_method
  (endpoints : list endpoint) (implemented : gset string)
  (e1 e2 : endpoint) :
  In e1 endpoints -> In e2 endpoints ->
  is_active e1 = true -> is_active e2 = true ->
  ep_path e1 = ep_path e2 ->
  exists r,
    coverage endpoints implemented = Some r
    /\ (In e1 (rp_covered r) <-> covers implemented (ep_path e1) = true)
    /\ (In e1 (rp_missing r) <-> covers implemented (ep_path e1) = false)
    /\ (In e1 (rp_covered r) <-> In e2 (rp_covered r))
    /\ (In e1 (rp_missing r) <-> In e2 (rp_missing r))
    /\ match_endpoint (ep_path e1) implemented
       = match_endpoint (ep_path e2) implemented.
Proof.
  intros H1 H2 A1 A2 Hpath.
  eexists. split; [apply coverage_eq|].
  cbn [rp_covered rp_missing].
  assert (Hc : forall e, In e endpoints -> is_active e = true ->
                 In e (List.filter
                         (fun ep => covers implemented (ep_path ep))
                         (List.filter is_active endpoints))
                 <-> covers implemented (ep_path e) = true).
  { intros e He Ae. rewrite !filter_In. tauto. }
  assert (Hm : forall e, In e endpoints -> is_active e = true ->
                 In e (List.filter
                         (fun ep => negb (covers implemented (ep_path ep)))
                         (List.filter is_active endpoints))
                 <-> covers implemented (ep_path e) = false).
  { intros e He Ae. rewrite !filter_In, negb_true_iff. tauto. }
  split; [now apply Hc|]. split; [now apply Hm|].
  split; [|split].
  - rewrite (Hc e1 H1 A1), (Hc e2 H2 A2), Hpath. reflexivity.
  - rewrite (Hm e1 H1 A1), (Hm e2 H2 A2), Hpath. reflexivity.
  - now rewrite Hpath.
Qed.

Lemma matching_ignores_method_witness :
  let e1 := mk_endpoint "GET" "/v1/voices/{voice_id}" (JStr "get") false in
  let e2 := mk_endpoint "DELETE" "/v1/voices/{voice_id}" (JStr "del") false in
  let implemented : gset string := {["/v1/voices/{id}"]} in
  exists r,
    coverage [e1; e2] implemented = Some r
    /\ (In e1 (rp_covered r) <-> covers implemented (ep_path e1) = true)
    /\ (In e1 (rp_missing r) <-> covers implemented (ep_path e1) = false)
    /\ (In e1 (rp_covered r) <-> In e2 (rp_covered r))
    /\ (In e1 (rp_missing r) <-> In e2 (rp_missing r))
    /\ match_endpoint (ep_path e1) implemented
       = match_endpoint (ep_path e2) implemented.
Proof.
  intros e1 e2 implemented.
  apply (matching_ignores_method [e1; e2] implemented e1 e2).
  - simpl. left. reflexivity.
  - simpl. right. left. reflexivity.
  - reflexivity.
  - reflexivity.
  - reflexivity.
Defined.
(** ** Claims on the loader *)

Lemma parse_operation_eq (path : string) (endpoints : list endpoint)
  (item : string * json) :
  parse_operation path endpoints item
  = Some (endpoints ++ operation_descriptors path [item])%list.
Proof.
  destruct item as [method detail].
  unfold parse_operation, operation_descriptors.
  cbn [flat_map fst snd].
  destruct (bool_decide (Py.lower method ∈ HTTP_METHODS)); cbn [negb].
  - destruct detail; cbn [is_dict negb get mbind option_bind];
      now rewrite ?app_nil_r.
  - destruct detail; now rewrite ?app_nil_r.
Qed.

Lemma operation_descriptors_cons (path : string) (item : string * json)
  (operations : list (string * json)) :
  operation_descriptors path (item :: operations)
  = (operation_descriptors path [item]
     ++ operation_descriptors path operations)%list.
Proof.
  unfold operation_descriptors. cbn [flat_map]. now rewrite app_nil_r.
Qed.

Lemma for_each_parse_operation (path : string)
  (operations : list (string * json)) :
  forall endpoints : list endpoint,
    for_each (parse_operation path) operations endpoints
    = Some (endpoints ++ operation_descriptors path operations)%list.
Proof.
  induction operations as [|item ops IH]; intros endpoints.
  - simpl. now rewrite app_nil_r.
  - cbn [for_each]. rewrite parse_operation_eq. cbn [mbind option_bind].
    rewrite IH, (operation_descriptors_cons path item ops).
    now rewrite app_assoc.
Qed.

Lemma parse_path_item_eq (endpoints : list endpoint) (item : string * json) :
  is_dict (snd item) = true ->
  parse_path_item endpoints item
  = Some (endpoints ++ path_descriptors [item])%list.
Proof.
  destruct item as [path methods]. cbn [snd]. intros Hd.
  destruct methods; try discriminate Hd.
  unfold parse_path_item, path_descriptors.
  cbn [items mbind option_bind flat_map fst snd].
  rewrite for_each_parse_operation. now rewrite app_nil_r.
Qed.

Lemma path_descriptors_cons (item : string * json)
  (paths : list (string * json)) :
  path_descriptors (item :: paths)
  = (path_descriptors [item] ++ path_descriptors paths)%list.
Proof.
  unfold path_descriptors. cbn [flat_map]. now rewrite app_nil_r.
Qed.

Lemma for_each_parse_path_item (paths : list (string * json)) :
  Forall (fun item => is_dict (snd item) = true) paths ->
  forall endpoints : list endpoint,
    for_each parse_path_item paths endpoints
    = Some (endpoints ++ path_descriptors paths)%list.
Proof.
  induction 1 as [|item paths Hd _ IH]; intros endpoints.
  - simpl. now rewrite app_nil_r.
  - cbn [for_each]. rewrite (parse_path_item_eq _ _ Hd).
    cbn [mbind option_bind].
    rewrite IH, (path_descriptors_cons item paths). now rewrite app_assoc.
Qed.

Lemma in_operation_descriptors (path : string)
  (operations : list (string * json)) (ep : endpoint) :
  In ep (operation_descriptors path operations)
  <-> exists method detail,
        In (method, JDict detail) operations
        /\ Py.lower method ∈ HTTP_METHODS
        /\ ep = descriptor path method detail.
Proof.
  unfold operation_descriptors. rewrite in_flat_map. split.
  - intros ([method detail] & Hin & Hep). cbn [fst snd] in Hep.
    destruct detail as [| | | | | |d]; try contradiction.
    destruct (bool_decide (Py.lower method ∈ HTTP_METHODS)) eqn:Hm;
      [|contradiction].
    destruct Hep as [<-|[]]. exists method, d.
    split; [exact Hin|]. split; [|reflexivity].
    now apply bool_decide_eq_true in Hm.
  - intros (method & detail & Hin & Hm & ->).
    exists (method, JDict detail). split; [exact Hin|].
    cbn [fst snd]. rewrite bool_decide_eq_true_2 by exact Hm. now left.
Qed.

Lemma in_path_descriptors (paths : list (string * json)) (ep : endpoint) :
  In ep (path_descriptors paths)
  <-> exists path operations method detail,
        In (path, JDict operations) paths
        /\ In (method, JDict detail) operations
        /\ Py.lower method ∈ HTTP_METHODS
        /\ ep = descriptor path method detail.
Proof.
  unfold path_descriptors. rewrite in_flat_map. split.
  - intros ([path methods] & Hin & Hep). cbn [fst snd] in Hep.
    destruct methods as [| | | | | |ops]; try contradiction.
    apply in_operation_descriptors in Hep as (method & detail & H1 & H2 & H3).
    exists path, ops, method, detail. auto.
  - intros (path & ops & method & detail & Hin & H1 & H2 & H3).
    exists (path, JDict ops). split; [exact Hin|].
    cbn [fst snd]. apply in_operation_descriptors. eauto.
Qed.

Lemma upper_of_lower_char (c : ascii) :
  Py.between 97 122 (Py.lower_char c) = true ->
  Py.upper_char c = Py.upper_char (Py.lower_char c).
Proof. all_chars c; intros H; try discriminate H; reflexivity. Qed.

Lemma upper_of_lower (s : string) :
  all_lower_letters (Py.lower s) = true ->
  Py.upper s = Py.upper (Py.lower s).
Proof.
  induction s as [|c s IH]; [reflexivity|].
  simpl. intros H. apply andb_true_iff in H as [Hc Hs].
  unfold Py.upper, Py.lower in *. simpl.
  now rewrite (upper_of_lower_char c Hc), (IH Hs).
Qed.

Lemma upper_method (method : string) :
  Py.lower method ∈ HTTP_METHODS -> In (Py.upper method) UPPER_METHODS.
Proof.
  intros H. unfold HTTP_METHODS in H. apply elem_of_list_to_set in H.
  rewrite upper_of_lower.
  - repeat (apply elem_of_cons in H as [->|H]; [simpl; tauto|]).
    now apply elem_of_nil in H.
  - repeat (apply elem_of_cons in H as [->|H]; [reflexivity|]).
    now apply elem_of_nil in H.
Qed.
(** C5.  For a document whose [paths] member maps every path to an object,
    the loader returns, in document order, one descriptor for each pair of
    a path and a key of its object such that the key in lower case is one
    of the HTTP verbs and the value is an object; no other key yields a
    descriptor.  The descriptor carries the key in upper case (one of the
    seven verbs), the path, [operationId] or the empty string, and the
    truth value of [deprecated] or false. *)
Theorem parse_openapi_descriptors (top paths : list (string * json)) :
  dict_get "paths" top (JDict []) = JDict paths ->
  Forall (fun item => is_dict (snd item) = true) paths ->
  exists endpoints,
    parse_openapi (JDict top) = Some endpoints
    /\ endpoints = path_descriptors paths
    /\ (forall ep,
          In ep endpoints
          <-> exists path operations method detail,
                In (path, JDict operations) paths
                /\ In (method, JDict detail) operations
                /\ Py.lower method ∈ HTTP_METHODS
                /\ ep = mk_endpoint
                          (Py.upper method) path
                          (dict_get "operationId" detail (JStr ""))
                          (py_bool
                             (dict_get "deprecated" detail (JBool false))))
    /\ Forall (fun ep => In (ep_method ep) UPPER_METHODS) endpoints.
Proof.
  intros Hpaths Hshape. exists (path_descriptors paths).
  split; [|split; [reflexivity|split]].
  - unfold parse_openapi. cbn [get mbind option_bind]. rewrite Hpaths.
    cbn [items mbind option_bind].
    now rewrite (for_each_parse_path_item paths Hshape).
  - intros ep. apply in_path_descriptors.
  - apply List.Forall_forall. intros ep Hep.
    apply in_path_descriptors in Hep
      as (path & ops & method & detail & _ & _ & Hm & ->).
    cbn [descriptor ep_method]. now apply upper_method.
Qed.

Lemma parse_openapi_descriptors_witness :
  let voices :=
    JDict [("parameters", JList []);
           ("get", JDict [("operationId", JStr "get_voices")]);
           ("Post", JDict [("deprecated", JBool true)]);
           ("put", JStr "not an object");
           ("x-extension", JDict [])] in
  let paths := [("/v1/voices", voices); ("/docs", JDict [("get", JDict [])])] in
  let top := [("openapi", JStr "3.1.0"); ("paths", JDict paths)] in
  exists endpoints,
    parse_openapi (JDict top) = Some endpoints
    /\ endpoints = path_descriptors paths
    /\ (forall ep,
          In ep endpoints
          <-> exists path operations method detail,
                In (path, JDict operations) paths
                /\ In (method, JDict detail) operations
                /\ Py.lower method ∈ HTTP_METHODS
                /\ ep = mk_endpoint
                          (Py.upper method) path
                          (dict_get "operationId" detail (JStr ""))
                          (py_bool
                             (dict_get "deprecated" detail (JBool false))))
    /\ Forall (fun ep => In (ep_method ep) UPPER_METHODS) endpoints.
Proof.
  intros voices paths top.
  apply (parse_openapi_descriptors top paths).
  - reflexivity.
  - repeat constructor.
Defined.

(** The same document, evaluated: the [parameters] sibling, the key whose
    value is no object and the extension key yield nothing; a key in mixed
    case is a verb. *)
Example parse_openapi_example :
  parse_openapi
    (JDict [("openapi", JStr "3.1.0");
            ("paths",
             JDict [("/v1/voices",
                     JDict [("parameters", JList []);
                            ("get", JDict [("operationId", JStr "get_voices")]);
                            ("Post", JDict [("deprecated", JBool true)]);
                            ("put", JStr "not an object");
                            ("x-extension", JDict [])]);
                    ("/docs", JDict [("get", JDict [])])])])
  = Some [mk_endpoint "GET" "/v1/voices" (JStr "get_voices") false;
          mk_endpoint "POST" "/v1/voices" (JStr "") true;
          mk_endpoint "GET" "/docs" (JStr "") false].
Proof. vm_compute. reflexivity. Qed.
(** ** Soundness of the engine *)

Lemma substring_prefix (w s : string) :
  substring 0 (String.length w) (w ++ s) = w.
Proof.
  induction w as [|c w IH].
  - rewrite sapp_nil_l. simpl. now destruct s.
  - rewrite sapp_cons. simpl. now rewrite IH.
Qed.

Lemma rep_sound (cs : cset) (k : cont) :
  forall (s : string) (pos : nat) (g : caps) (res : result),
    rep cs k pos s g = Some res ->
    exists w s', s = w ++ s' /\ all_in cs w = true
                 /\ k (pos + String.length w) s' g = Some res.
Proof.
  induction s as [|c s IH]; intros pos g res H; simpl in H.
  - exists EmptyString, EmptyString. rewrite Nat.add_0_r. auto.
  - destruct (cset_mem cs c) eqn:Hc.
    + destruct (rep cs k (S pos) s g) as [res'|] eqn:Hr.
      * injection H as <-.
        destruct (IH _ _ _ Hr) as (w & s' & -> & Hw & Hk).
        exists (String c w), s'. rewrite sapp_cons. simpl.
        rewrite Hc, Hw. replace (pos + S (String.length w))
          with (S pos + String.length w) by lia. auto.
      * exists EmptyString, (String c s). rewrite Nat.add_0_r. auto.
    + exists EmptyString, (String c s). rewrite Nat.add_0_r. auto.
Qed.

Lemma one_sound (cs : cset) (k : cont) (s : string) (pos : nat) (g : caps)
  (res : result) :
  one cs k pos s g = Some res ->
  exists c s', s = String c s' /\ cset_mem cs c = true
               /\ k (S pos) s' g = Some res.
Proof.
  destruct s as [|c s]; simpl; [discriminate|].
  destruct (cset_mem cs c) eqn:Hc; [|discriminate]. eauto.
Qed.

Theorem exec_sound (r : re) :
  forall (k : cont) (pos : nat) (s : string) (g : caps) (res : result),
    exec r k pos s g = Some res ->
    exists w s' g', s = w ++ s' /\ run r g w g'
                    /\ k (pos + String.length w) s' g' = Some res.
Proof.
  induction r as [|cs|cs|cs|r1 IH1 r2 IH2|r1 IH1 r2 IH2|r1 IH1|n r1 IH1| |];
    intros k pos s g res H; cbn [exec] in H.
  - exists EmptyString, s, g. rewrite Nat.add_0_r.
    repeat split; [constructor|exact H].
  - apply one_sound in H as (c & s' & -> & Hc & Hk).
    exists (String c EmptyString), s', g. simpl.
    replace (pos + 1) with (S pos) by lia.
    repeat split; [now constructor|exact Hk].
  - apply rep_sound in H as (w & s' & -> & Hw & Hk).
    exists w, s', g. repeat split; [now constructor|exact Hk].
  - apply one_sound in H as (c & s1 & -> & Hc & Hk).
    apply rep_sound in Hk as (w & s' & -> & Hw & Hk).
    exists (String c w), s', g. rewrite sapp_cons. simpl.
    replace (pos + S (String.length w)) with (S pos + String.length w) by lia.
    repeat split; [|exact Hk]. constructor. simpl. now rewrite Hc, Hw.
  - apply IH1 in H as (w1 & s1 & g1 & -> & Hr1 & Hk).
    apply IH2 in Hk as (w2 & s2 & g2 & -> & Hr2 & Hk).
    exists (w1 ++ w2), s2, g2. rewrite sapp_assoc, slength_app.
    rewrite Nat.add_assoc. repeat split; [|exact Hk].
    econstructor; eassumption.
  - destruct (exec r1 k pos s g) as [res'|] eqn:E.
    + injection H as <-.
      apply IH1 in E as (w & s' & g' & -> & Hr & Hk).
      exists w, s', g'. repeat split; [now apply run_alt_l|exact Hk].
    + apply IH2 in H as (w & s' & g' & -> & Hr & Hk).
      exists w, s', g'. repeat split; [now apply run_alt_r|exact Hk].
  - destruct (exec r1 k pos s g) as [res'|] eqn:E.
    + injection H as <-.
      apply IH1 in E as (w & s' & g' & -> & Hr & Hk).
      exists w, s', g'. repeat split; [now apply run_opt_some|exact Hk].
    + exists EmptyString, s, g. rewrite Nat.add_0_r.
      repeat split; [apply run_opt_none|exact H].
  - apply IH1 in H as (w & s' & g' & -> & Hr & Hk).
    replace (pos + String.length w - pos) with (String.length w) in Hk
      by lia.
    rewrite substring_prefix in Hk.
    exists w, s', ((n, w) :: g'). repeat split; [now constructor|exact Hk].
  - destruct (Nat.eqb pos 0); [|discriminate].
    exists EmptyString, s, g. rewrite Nat.add_0_r.
    repeat split; [constructor|exact H].
  - destruct (at_end s); [|discriminate].
    exists EmptyString, s, g. rewrite Nat.add_0_r.
    repeat split; [constructor|exact H].
Qed.

Lemma run_nullable (r : re) (g : caps) (w : string) (g' : caps) :
  run r g w g' -> nullable r = false -> w <> EmptyString.
Proof.
  induction 1; simpl; intros Hn; try discriminate.
  - apply andb_false_iff in Hn as [Hn|Hn].
    + intros E. destruct w1; [now apply IHrun1|discriminate].
    + intros E. destruct w1; [now apply IHrun2|discriminate].
  - apply orb_false_iff in Hn as [Hn _]. auto.
  - apply orb_false_iff in Hn as [_ Hn]. auto.
  - auto.
Qed.

Lemma run_group_free (r : re) (g : caps) (w : string) (g' : caps) :
  run r g w g' -> group_free r = true -> g' = g.
Proof.
  induction 1; simpl; intros Hf; try reflexivity; try discriminate.
  - apply andb_true_iff in Hf as [H1 H2].
    rewrite (IHrun2 H2). now apply IHrun1.
  - apply andb_true_iff in Hf as [H1 _]. auto.
  - apply andb_true_iff in Hf as [_ H2]. auto.
  - auto.
Qed.

(** A match of a pattern that cannot take the empty text ends after the
    position at which it starts: the scan of [finditer] always moves on. *)
Lemma exec_progress (r : re) (pos : nat) (s : string) (res : result) :
  nullable r = false ->
  exec r accept pos s [] = Some res -> pos < r_end res.
Proof.
  intros Hn H. apply exec_sound in H as (w & s' & g' & _ & Hr & Hk).
  injection Hk as <-. simpl.
  pose proof (run_nullable _ _ _ _ Hr Hn) as Hw.
  destruct w; [contradiction|]. simpl. lia.
Qed.

Lemma patterns_not_nullable :
  nullable PATH_PATTERN = false /\ nullable DOC_PATH_PATTERN = false
  /\ nullable PLACEHOLDER = false.
Proof. repeat split. Qed.

Lemma finditer_from_caps (r : re) (fuel : nat) :
  forall (pos : nat) (s : string) (m : match_obj),
    In m (finditer_from fuel r pos s) ->
    exists pos' s' res,
      exec r accept pos' s' [] = Some res /\ m_caps m = r_caps res.
Proof.
  induction fuel as [|fuel IH]; intros pos s m Hin; [contradiction|].
  cbn [finditer_from] in Hin.
  destruct (exec r accept pos s []) as [res|] eqn:E.
  - destruct (Nat.ltb pos (r_end res)).
    + destruct Hin as [<-|Hin]; [eauto|]. eapply IH; eassumption.
    + destruct Hin as [<-|Hin]; [eauto|].
      destruct s as [|c s]; [contradiction|]. eapply IH; eassumption.
  - destruct s as [|c s]; [contradiction|]. eapply IH; eassumption.
Qed.
(** ** The scanner *)

Lemma run_seq_inv (r1 r2 : re) (g : caps) (w : string) (g2 : caps) :
  run (Seq r1 r2) g w g2 ->
  exists w1 g1 w2, w = w1 ++ w2 /\ run r1 g w1 g1 /\ run r2 g1 w2 g2.
Proof. inversion 1; subst. eauto 6. Qed.

Lemma run_grp_inv (n : nat) (r : re) (g : caps) (w : string) (g' : caps) :
  run (Grp n r) g w g' -> exists g1, g' = (n, w) :: g1 /\ run r g w g1.
Proof. inversion 1; subst. eauto. Qed.

Lemma run_chr_inv (cs : cset) (g : caps) (w : string) (g' : caps) :
  run (Chr cs) g w g' ->
  g' = g /\ exists c, w = String c EmptyString /\ cset_mem cs c = true.
Proof. inversion 1; subst. eauto. Qed.

Lemma run_eps_inv (g : caps) (w : string) (g' : caps) :
  run Eps g w g' -> g' = g /\ w = EmptyString.
Proof. inversion 1; subst. auto. Qed.

Lemma run_lit (t : string) :
  forall (g : caps) (w : string) (g' : caps),
    run (lit t) g w g' -> w = t /\ g' = g.
Proof.
  induction t as [|c t IH]; intros g w g' H; cbn [lit] in H.
  - apply run_eps_inv in H as [-> ->]. auto.
  - apply run_seq_inv in H as (w1 & g1 & w2 & -> & H1 & H2).
    apply run_chr_inv in H1 as (-> & c' & -> & Hc).
    apply IH in H2 as [-> ->]. simpl in Hc. apply Ascii.eqb_eq in Hc.
    subst c'. auto.
Qed.

Lemma group_free_lits (ts : list string) : group_free (alts (map lit ts)) = true.
Proof.
  assert (Hl : forall t, group_free (lit t) = true)
    by (induction t as [|c t IH]; [reflexivity|exact IH]).
  induction ts as [|t [|t' ts] IH]; [reflexivity|apply Hl|].
  change (group_free (lit t) && group_free (alts (map lit (t' :: ts))) = true).
  now rewrite Hl, IH.
Qed.

(** Group 1 of a match of [DOC_PATH_PATTERN] begins with /v. *)
Lemma doc_group_versioned (w : string) (g' : caps) :
  run DOC_PATH_PATTERN [] w g' ->
  exists path, lookup_group 1 g' = Some path
               /\ Py.startswith "/v" path = true.
Proof.
  unfold DOC_PATH_PATTERN. cbn [seqs]. intros H.
  apply run_seq_inv in H as (w1 & g1 & t1 & -> & H1 & H).
  apply run_chr_inv in H1 as (-> & _).
  apply run_seq_inv in H as (w2 & g2 & t2 & -> & H2 & H).
  apply run_group_free in H2; [|apply group_free_lits]. subst g2.
  apply run_seq_inv in H as (w3 & g3 & t3 & -> & H3 & H).
  apply run_group_free in H3; [|reflexivity]. subst g3.
  apply run_seq_inv in H as (w4 & g4 & t4 & -> & H4 & H).
  apply run_group_free in H; [|reflexivity]. subst g'.
  apply run_grp_inv in H4 as (gb & -> & Hb).
  apply run_seq_inv in Hb as (wv & gv & wr & -> & Hv & _).
  apply run_lit in Hv as [-> _].
  exists ("/v" ++ wr). split; [|reflexivity].
  simpl. reflexivity.
Qed.

Lemma finditer_doc_groups (content : string) :
  Forall (fun m => exists path, group 1 m = Some path
                                /\ Py.startswith "/v" path = true)
         (finditer DOC_PATH_PATTERN content).
Proof.
  apply List.Forall_forall. intros m Hm.
  apply finditer_from_caps in Hm as (pos & s & res & Hex & Hcaps).
  apply exec_sound in Hex as (w & s' & g' & _ & Hrun & Hk).
  injection Hk as <-. unfold group. rewrite Hcaps. simpl.
  now apply (doc_group_versioned w).
Qed.

Lemma split_head (sep : ascii) (s : string) :
  exists x xs, Py.split sep s = x :: xs /\ Py.contains sep x = false.
Proof.
  induction s as [|c s (x & xs & IH & Hx)]; simpl.
  - exists EmptyString, []. auto.
  - destruct (Ascii.eqb c sep) eqn:Hc.
    + exists EmptyString, (Py.split sep s). auto.
    + rewrite IH. exists (String c x), xs. simpl. now rewrite Hc, Hx.
Qed.

Lemma normalise_path_versioned (raw : string) :
  Py.startswith "/v" raw = true ->
  exists p, normalise_path raw = Some p /\ versioned p.
Proof.
  intros H. destruct raw as [|a [|b rest]]; try discriminate H.
  - cbn [Py.startswith] in H. now rewrite andb_false_r in H.
  - cbn [Py.startswith] in H. rewrite andb_true_r in H.
    apply andb_true_iff in H as [Ha Hb].
    apply Ascii.eqb_eq in Ha, Hb. subst a b.
    destruct (split_head "?" rest) as (x & xs & Hs & Hx).
    exists (String "/" (String "v" x)).
    unfold normalise_path, Py.item0. simpl. rewrite Hs. simpl.
    split; [reflexivity|]. split; [reflexivity|]. simpl. exact Hx.
Qed.

Lemma set_Forall_add (P : string -> Prop) (p : string)
  (implemented : gset string) :
  P p -> set_Forall P implemented -> set_Forall P ({[p]} ∪ implemented).
Proof.
  intros Hp Hs. apply set_Forall_union; [|exact Hs].
  now apply set_Forall_singleton.
Qed.

Lemma scan_code_match_versioned (implemented : gset string) (m : match_obj) :
  set_Forall versioned implemented ->
  exists implemented',
    scan_code_match implemented m = Some implemented'
    /\ set_Forall versioned implemented'.
Proof.
  intros Hs. unfold scan_code_match.
  destruct (py_or _ _) as [r|]; [|eauto].
  destruct (Py.nonempty r && Py.startswith "/v" r) eqn:Hg; [|eauto].
  apply andb_true_iff in Hg as [_ Hv].
  destruct (normalise_path_versioned r Hv) as (p & -> & Hp).
  cbn [mbind option_bind]. eexists. split; [reflexivity|].
  now apply set_Forall_add.
Qed.

Lemma scan_doc_match_versioned (implemented : gset string) (m : match_obj) :
  (exists path, group 1 m = Some path /\ Py.startswith "/v" path = true) ->
  set_Forall versioned implemented ->
  exists implemented',
    scan_doc_match implemented m = Some implemented'
    /\ set_Forall versioned implemented'.
Proof.
  intros (path & Hg & Hv) Hs. unfold scan_doc_match. rewrite Hg.
  destruct (Py.nonempty path); [|eauto].
  destruct (normalise_path_versioned path Hv) as (p & -> & Hp).
  cbn [mbind option_bind]. eexists. split; [reflexivity|].
  now apply set_Forall_add.
Qed.

Lemma for_each_invariant {A S : Type} (I : S -> Prop) (Q : A -> Prop)
  (body : S -> A -> option S) (xs : list A) :
  (forall st x, I st -> Q x -> exists st', body st x = Some st' /\ I st') ->
  Forall Q xs ->
  forall st, I st -> exists st', for_each body xs st = Some st' /\ I st'.
Proof.
  intros Hbody. induction 1 as [|x xs Hx _ IH]; intros st Hst.
  - exists st. auto.
  - destruct (Hbody st x Hst Hx) as (st1 & Hb & H1).
    cbn [for_each]. rewrite Hb. cbn [mbind option_bind]. now apply IH.
Qed.

Lemma Forall_trivial {A : Type} (xs : list A) : Forall (fun _ => True) xs.
Proof. induction xs; constructor; auto. Qed.

Lemma scan_file_versioned (implemented : gset string) (f : rs_file) :
  set_Forall versioned implemented ->
  scannable f ->
  exists implemented',
    scan_file implemented f = Some implemented'
    /\ set_Forall versioned implemented'.
Proof.
  intros Hs Hf. unfold scan_file.
  destruct (String.eqb_spec (f_name f) "mod.rs") as [Hname|Hname]; [eauto|].
  destruct Hf as [Hf|[content Hf]]; [contradiction|].
  rewrite Hf. cbn [mbind option_bind].
  destruct (for_each_invariant (set_Forall versioned) (fun _ => True)
              scan_code_match (finditer PATH_PATTERN content))
    with (st := implemented) as (impl1 & -> & H1).
  - intros st m Hst _. now apply scan_code_match_versioned.
  - apply Forall_trivial.
  - exact Hs.
  - cbn [mbind option_bind].
    apply (for_each_invariant (set_Forall versioned) _ scan_doc_match
             _ (fun st m Hst Hm => scan_doc_match_versioned st m Hm Hst)
             (finditer_doc_groups content) impl1 H1).
Qed.

Lemma scan_file_returns (implemented implemented' : gset string)
  (f : rs_file) :
  scan_file implemented f = Some implemented' -> scannable f.
Proof.
  unfold scan_file, scannable.
  destruct (String.eqb_spec (f_name f) "mod.rs") as [Hname|Hname];
    [now left|].
  destruct (f_read_text f) as [content|]; [right; eauto|discriminate].
Qed.

Lemma for_each_scan_file_returns (rs_files : list rs_file) :
  forall st st',
    for_each scan_file rs_files st = Some st' -> Forall scannable rs_files.
Proof.
  induction rs_files as [|f fs IH]; intros st st' H; [constructor|].
  cbn [for_each] in H.
  destruct (scan_file st f) as [st1|] eqn:Hf; [|discriminate H].
  cbn [mbind option_bind] in H.
  constructor; [exact (scan_file_returns _ _ _ Hf)|exact (IH _ _ H)].
Qed.

Lemma scannable_mk_file (name content : string) :
  scannable (mk_file name content).
Proof. right. now exists content. Qed.

(** C4 (amended).  [scan_services] returns exactly on the directories in
    which every entry other than mod.rs can be read as text, and it raises
    on the others.  Every path of a set it returns begins with /v and
    holds no question mark; so a text that does not begin with /v is never
    in the set. *)
Theorem scan_services_versioned (rs_files : list rs_file) :
  (is_Some (scan_services rs_files) <-> Forall scannable rs_files)
  /\ (forall implemented,
        scan_services rs_files = Some implemented ->
        set_Forall (fun p => Py.startswith "/v" p = true
                             /\ Py.contains "?" p = false) implemented
        /\ set_Forall (fun p => Py.startswith "/v" p = true) implemented).
Proof.
  assert (Hret : Forall scannable rs_files ->
                 exists impl,
                   scan_services rs_files = Some impl
                   /\ set_Forall versioned impl).
  { intros Hall.
    apply (for_each_invariant (set_Forall versioned) scannable scan_file
             rs_files (fun st f Hst Hf => scan_file_versioned st f Hst Hf)
             Hall ∅).
    apply set_Forall_empty. }
  split.
  - split.
    + intros [impl H]. exact (for_each_scan_file_returns _ _ _ H).
    + intros Hall. destruct (Hret Hall) as (impl & -> & _). now eexists.
  - intros implemented Hscan.
    destruct (Hret (for_each_scan_file_returns _ _ _ Hscan))
      as (impl & Himpl & Hver).
    rewrite Hscan in Himpl. injection Himpl as <-.
    split; [exact Hver|]. intros p Hp. exact (proj1 (Hver p Hp)).
Qed.

Lemma scan_services_versioned_witness :
  let rs_files :=
    [mk_entry "mod.rs" None;
     mk_file "models.rs" ("self.client.get(" ++ quoted "/v1/models" ++ ")")] in
  is_Some (scan_services rs_files)
  /\ set_Forall (fun p => Py.startswith "/v" p = true)
                ({["/v1/models"]} : gset string).
Proof.
  intros rs_files.
  destruct (scan_services_versioned rs_files) as [Hret Hinv]. split.
  - apply (proj2 Hret).
    constructor; [now left|]. constructor; [|constructor].
    apply scannable_mk_file.
  - apply (Hinv {["/v1/models"]}). vm_compute. reflexivity.
Defined.
(** ** A literal call, scanned *)

Lemma exec_lit (t : string) (k : cont) :
  forall (pos : nat) (s : string) (g : caps),
    exec (lit t) k pos (t ++ s) g = k (pos + String.length t) s g.
Proof.
  induction t as [|c t IH]; intros pos s g.
  - rewrite sapp_nil_l. simpl. now rewrite Nat.add_0_r.
  - rewrite sapp_cons. cbn [lit exec one cset_mem].
    rewrite Ascii.eqb_refl, IH. simpl. f_equal. lia.
Qed.

Lemma rep_stop (cs : cset) (k : cont) (pos : nat) (c : ascii) (s : string)
  (g : caps) :
  cset_mem cs c = false ->
  rep cs k pos (String c s) g = k pos (String c s) g.
Proof. intros H. simpl. now rewrite H. Qed.

Lemma exec_alt_first (r1 r2 : re) (k : cont) (pos : nat) (s : string)
  (g : caps) (res : result) :
  exec r1 k pos s g = Some res -> exec (Alt r1 r2) k pos s g = Some res.
Proof. intros H. cbn [exec]. now rewrite H. Qed.

Lemma exec_quoted_group (n : nat) (k : cont) (pos : nat) (raw s : string)
  (g : caps) :
  Py.nonempty raw = true ->
  Py.contains DQUOTE raw = false ->
  exec (quoted_group n) k pos (quoted raw ++ s) g
  = k (pos + 2 + String.length raw) s ((n, raw) :: g).
Proof.
  intros Hne Hq. destruct raw as [|c v]; [discriminate|].
  simpl in Hq. apply orb_false_iff in Hq as [Hc Hv].
  unfold quoted, quoted_group.
  rewrite !sapp_cons, sapp_assoc, sapp_cons, sapp_nil_l.
  cbn [seqs exec one cset_mem]. rewrite Ascii.eqb_refl, Hc. cbn [negb].
  rewrite (rep_until (c := DQUOTE) _
             (fun p s' g' =>
                k p s' ((n, substring 0 (p - 1 - S pos)
                              (String c (v ++ String DQUOTE s))) :: g'))
             v s (S (S pos)) g).
  - replace (S (S (S pos) + String.length v) - 1 - S pos)
      with (String.length (String c v)) by (simpl; lia).
    change (String c (v ++ String DQUOTE s))
      with (String c v ++ String DQUOTE s).
    rewrite substring_prefix. f_equal. simpl. lia.
  - intros p s' g'. destruct s' as [|a s']; [reflexivity|].
    cbn [one cset_mem exec]. destruct (Ascii.eqb a DQUOTE); [|reflexivity].
    do 4 f_equal. lia.
  - exact Hv.
Qed.

Lemma exec_literal_call (raw : string) :
  Py.nonempty raw = true ->
  Py.contains DQUOTE raw = false ->
  exec PATH_PATTERN accept 0 (".get(" ++ quoted raw ++ ")") []
  = Some (mk_result (7 + String.length raw) ")" [(1, raw)]).
Proof.
  intros Hne Hq. unfold PATH_PATTERN. cbn [alts].
  apply exec_alt_first. cbn [seqs].
  change (".get(" ++ quoted raw ++ ")")
    with ("." ++ "get" ++ String "(" (quoted raw ++ ")")).
  cbn [exec]. rewrite exec_lit.
  cbn [map CALL_NAMES alts].
  rewrite (exec_alt_first (lit "get") _ _ _ _ _
             (mk_result (7 + String.length raw) ")" [(1, raw)]));
    [reflexivity|].
  rewrite exec_lit. unfold SPACES0. cbn [exec].
  rewrite rep_stop by reflexivity.
  change (String "(" (quoted raw ++ ")")) with ("(" ++ quoted raw ++ ")").
  rewrite exec_lit. unfold quoted at 1.
  rewrite sapp_cons, rep_stop by reflexivity.
  change (String DQUOTE ((raw ++ String DQUOTE "") ++ ")"))
    with (quoted raw ++ ")").
  rewrite (exec_quoted_group 1 _ _ raw ")" [] Hne Hq).
  cbn [exec accept]. do 2 f_equal.
Qed.
Lemma scan_code_match_keeps (p : string) (implemented implemented' : gset string)
  (m : match_obj) :
  scan_code_match implemented m = Some implemented' ->
  p ∈ implemented -> p ∈ implemented'.
Proof.
  unfold scan_code_match. intros H Hp.
  destruct (py_or _ _) as [r|]; [|now injection H as <-].
  destruct (Py.nonempty r && Py.startswith "/v" r); [|now injection H as <-].
  destruct (normalise_path r) as [n|]; [|discriminate].
  injection H as <-. apply elem_of_union. now right.
Qed.

Lemma scan_doc_match_keeps (p : string) (implemented implemented' : gset string)
  (m : match_obj) :
  scan_doc_match implemented m = Some implemented' ->
  p ∈ implemented -> p ∈ implemented'.
Proof.
  unfold scan_doc_match. intros H Hp.
  destruct (group 1 m) as [r|]; [|now injection H as <-].
  destruct (Py.nonempty r); [|now injection H as <-].
  destruct (normalise_path r) as [n|]; [|discriminate].
  injection H as <-. apply elem_of_union. now right.
Qed.

(** A file that holds one call with a string literal: the literal, if it
    begins with /v and holds no question mark, is in the scanned set. *)
Lemma scan_literal_call (name raw : string) :
  String.eqb name "mod.rs" = false ->
  Py.startswith "/v" raw = true ->
  Py.contains DQUOTE raw = false ->
  Py.contains "?" raw = false ->
  exists scanned,
    scan_services [mk_file name (".get(" ++ quoted raw ++ ")")] = Some scanned
    /\ raw ∈ scanned.
Proof.
  intros Hname Hv Hq Hn.
  assert (Hne : Py.nonempty raw = true)
    by (destruct raw; [discriminate Hv|reflexivity]).
  set (content := ".get(" ++ quoted raw ++ ")").
  set (I := fun st : gset string => set_Forall versioned st /\ raw ∈ st).
  assert (Hcode : exists st, for_each scan_code_match
                               (finditer PATH_PATTERN content) ∅ = Some st
                             /\ I st).
  { unfold finditer. cbn [finditer_from]. unfold content at 1.
    rewrite (exec_literal_call raw Hne Hq). cbn [r_end r_rest r_caps].
    change (Nat.ltb 0 (7 + String.length raw)) with true. cbn [for_each].
    assert (Hfirst : scan_code_match ∅
                       (mk_match 0 (7 + String.length raw) [(1, raw)])
                     = Some ({[raw]} ∪ ∅)).
    { unfold scan_code_match, group. cbn [m_caps lookup_group Nat.eqb].
      rewrite !py_or_some by exact Hne. rewrite Hne, Hv. cbn [andb].
      now rewrite (normalise_path_plain raw Hn). }
    rewrite Hfirst. cbn [mbind option_bind].
    apply (for_each_invariant I (fun _ => True)).
    - intros st m [Hst Hin] _.
      destruct (scan_code_match_versioned st m Hst) as (st' & Hst' & Hver).
      exists st'. split; [exact Hst'|]. split; [exact Hver|].
      now apply (scan_code_match_keeps raw st st' m).
    - apply Forall_trivial.
    - split.
      + apply set_Forall_add; [now split|apply set_Forall_empty].
      + apply elem_of_union. left. now apply elem_of_singleton. }
  destruct Hcode as (st & Hst & HI).
  assert (Hdoc : exists st', for_each scan_doc_match
                               (finditer DOC_PATH_PATTERN content) st
                             = Some st' /\ I st').
  { apply (for_each_invariant I _ scan_doc_match _
             (fun st0 m (H0 : I st0) Hm =>
                match scan_doc_match_versioned st0 m Hm (proj1 H0) with
                | ex_intro _ st1 (conj Heq Hver) =>
                    ex_intro _ st1
                      (conj Heq
                         (conj Hver
                            (scan_doc_match_keeps raw st0 st1 m Heq
                               (proj2 H0))))
                end)
             (finditer_doc_groups content) st HI). }
  destruct Hdoc as (st' & Hst' & _ & Hin).
  exists st'. split; [|exact Hin].
  unfold scan_services. cbn [for_each]. unfold scan_file.
  unfold mk_file. cbn [f_name f_read_text]. rewrite Hname.
  cbn [mbind option_bind]. fold content.
  rewrite Hst. cbn [mbind option_bind]. now rewrite Hst'.
Qed.

(** C3 (amended).  The exact-match step compares the path template as it
    is, with no normalisation: a template that is literally a member of the
    implemented set is covered.  In particular a path that a source file
    holds as the string literal of a call, beginning with /v and with no
    query string, is scanned into the set unchanged, and the identical
    template then matches it exactly. *)
Theorem exact_match
  (ep_path : string) (implemented : gset string) (name : string) :
  (ep_path ∈ implemented -> match_endpoint ep_path implemented = Some true)
  /\ (String.eqb name "mod.rs" = false ->
      Py.startswith "/v" ep_path = true ->
      Py.contains DQUOTE ep_path = false ->
      Py.contains "?" ep_path = false ->
      exists scanned,
        scan_services [mk_file name (".get(" ++ quoted ep_path ++ ")")]
        = Some scanned
        /\ ep_path ∈ scanned
        /\ match_endpoint ep_path scanned = Some true).
Proof.
  split.
  - intros H. now rewrite match_endpoint_covers, covers_exact.
  - intros Hname Hv Hq Hn.
    destruct (scan_literal_call name ep_path Hname Hv Hq Hn)
      as (scanned & Hscan & Hin).
    exists scanned. split; [exact Hscan|]. split; [exact Hin|].
    now rewrite match_endpoint_covers, covers_exact.
Qed.

Lemma exact_match_witness :
  match_endpoint "/v1/models" {["/v1/models"]} = Some true
  /\ exists scanned,
       scan_services [mk_file "models.rs" (".get(" ++ quoted "/v1/models" ++ ")")]
       = Some scanned
       /\ "/v1/models" ∈ scanned
       /\ match_endpoint "/v1/models" scanned = Some true.
Proof.
  split.
  - apply (proj1 (exact_match "/v1/models" {["/v1/models"]} "models.rs")).
    apply elem_of_singleton. reflexivity.
  - apply (proj2 (exact_match "/v1/models" ∅ "models.rs")); reflexivity.
Defined.

(** C3, as the specification words it, fails: the path template is not
    stripped of a query string before the exact-match step. *)
Lemma exact_match_query_counterexample :
  normalise_path "/v1/history?page=2" = Some "/v1/history"
  /\ "/v1/history" ∈ ({["/v1/history"]} : gset string)
  /\ match_endpoint "/v1/history?page=2" {["/v1/history"]} = Some false.
Proof.
  split; [reflexivity|]. split; [now apply elem_of_singleton|].
  vm_compute. reflexivity.
Qed.

(** C4, as the specification words it, fails: the guard of the scanner is
    the prefix /v, not /v1/.  A call with the literal /v2/models and a call
    with the literal /version, which holds no placeholder, both reach the
    set. *)
Lemma scan_services_v1_counterexample :
  scan_services
    [mk_file "models.rs"
       ("self.client.get(" ++ quoted "/v2/models" ++ ").await; "
        ++ "self.client.delete(" ++ quoted "/version" ++ ").await")]
  = Some ({["/v2/models"]} ∪ {["/version"]})
  /\ Py.startswith "/v1/" "/v2/models" = false
  /\ Py.startswith "/v1/" "/version" = false
  /\ Py.contains "{" "/version" = false.
Proof. split; [vm_compute; reflexivity|repeat split]. Qed.

(** ** Evaluations *)

(** The scanner on one file: a call, a [format!], a [let path] binding, a
    bare literal, a documentation comment with a query string, and a
    literal that is no path. *)
Example scan_services_example :
  scan_services
    [mk_file "voices.rs"
       ("/// Calls `POST /v1/voices/add?flag=1`." ++ String "010"
        ("self.client.get(" ++ quoted "/v1/voices" ++ ");"
         ++ "let path = format!(" ++ quoted "/v1/voices/{voice_id}" ++ ");"
         ++ "let mut path = " ++ quoted "/v1/history?page=2" ++ ";"
         ++ "let url = " ++ quoted "/v1/models" ++ ";"
         ++ "let name = " ++ quoted "voices" ++ ";"));
     mk_file "mod.rs" ("self.client.get(" ++ quoted "/v1/hidden" ++ ")")]
  = Some (list_to_set ["/v1/voices"; "/v1/voices/{voice_id}"; "/v1/history";
                       "/v1/models"; "/v1/voices/add"]).
Proof. vm_compute. reflexivity. Qed.

(** A literal call, scanned and matched against the identical template. *)
Example literal_round_trip :
  (implemented ← scan_services
                   [mk_file "models.rs"
                      ("self.client.get(" ++ quoted "/v1/models" ++ ")")];
   match_endpoint "/v1/models" implemented)
  = Some true.
Proof. vm_compute. reflexivity. Qed.

(** The name of a placeholder of the implemented path may hold slashes. *)
Example placeholder_name_with_slash :
  match_endpoint "/v1/voices/{voice_id}" {["/v1/voices/{a/b}"]} = Some true.
Proof. vm_compute. reflexivity. Qed.

(** An empty pair of braces in the template is a placeholder too, an
    opening brace that is never closed is a plain character. *)
Example empty_and_open_braces :
  tokens "/v1/{}/x{y" = [TLit "/"; TLit "v"; TLit "1"; TLit "/"; TWild;
                         TLit "/"; TLit "x"; TLit "{"; TLit "y"]
  /\ match_endpoint "/v1/{}/x{y" {["/v1/{id}/x{y"]} = Some true.
Proof. split; vm_compute; reflexivity. Qed.

(** The dollar of the pattern also accepts a newline that ends the
    implemented path. *)
Example dollar_accepts_final_newline :
  match_endpoint "/v1/models" {[String.append "/v1/models" (String "010" "")]}
  = Some true.
Proof. vm_compute. reflexivity. Qed.

(** The first scenario of the specification, with the excluded path of the
    code: two active endpoints, both covered, 100 percent. *)
Example scenario_all_covered :
  let models := mk_endpoint "GET" "/v1/models" (JStr "") false in
  let tts :=
    mk_endpoint "POST" "/v1/text-to-speech/{voice_id}" (JStr "") false in
  let docs := mk_endpoint "GET" "/docs" (JStr "") false in
  coverage [models; tts; docs]
           (list_to_set ["/v1/models"; "/v1/text-to-speech/{id}"])
  = Some (mk_report [models; tts; docs] [models; tts] [] [models; tts] []
                    2 2 (PyFloat (float_of_int 100))).
Proof. vm_compute. reflexivity. Qed.

(** The second scenario: one active endpoint, nothing implemented, and a
    threshold of 50. *)
Example scenario_below_threshold :
  let doc :=
    JDict [("paths", JDict [("/v1/voices", JDict [("get", JDict [])])])] in
  let voices := mk_endpoint "GET" "/v1/voices" (JStr "") false in
  main (SpecLoaded doc) (Some []) (SetTo (float_of_int 50))
  = mk_outcome
      (Some (mk_report [voices] [voices] [] [] [voices] 1 0
                       (PyFloat (S754_zero false))))
      BelowThreshold.
Proof. vm_compute. reflexivity. Qed.

(** One third of the endpoints covered: the binary64 value that Python
    prints as 33.33333333333333. *)
Example percentage_one_third :
  percentage 1 3 = Some (PyFloat (S754_finite false 4691249611844266 (-47))).
Proof. vm_compute. reflexivity. Qed.

(** Inputs that are not there end the run before any report. *)
Example main_missing_inputs :
  main SpecMissing (Some []) Unset = mk_outcome None InputNotFound
  /\ main (SpecLoaded (JDict [])) None Unset = mk_outcome None InputNotFound
  /\ main SpecMalformed (Some []) Unset = mk_outcome None Uncaught.
Proof. repeat split. Qed.

(* ===================================================================== *)
(** * Further properties of the script                                     *)
(* ===================================================================== *)

(** ** [normalise_path] *)

Lemma split_head_prefix (sep : ascii) (s : string) :
  exists x xs,
    Py.split sep s = x :: xs /\ Py.contains sep x = false
    /\ (s = x \/ exists rest, s = x ++ String sep rest).
Proof.
  induction s as [|c s (x & xs & IH & Hx & Hs)]; simpl.
  - exists EmptyString, []. auto.
  - destruct (Ascii.eqb_spec c sep) as [->|Hc].
    + exists EmptyString, (Py.split sep s). repeat split. right.
      exists s. now rewrite sapp_nil_l.
    + rewrite IH. exists (String c x), xs. repeat split.
      * simpl. rewrite Hx. now destruct (Ascii.eqb_spec c sep).
      * destruct Hs as [->|(rest & ->)]; [now left|right].
        exists rest. now rewrite sapp_cons.
Qed.

Lemma normalise_path_head (raw : string) :
  exists p,
    normalise_path raw = Some p
    /\ Py.contains "?" p = false
    /\ (raw = p \/ exists rest, raw = p ++ String "?" rest).
Proof.
  destruct (split_head_prefix "?" raw) as (x & xs & Hsplit & Hx & Hraw).
  exists x. unfold normalise_path, Py.item0. rewrite Hsplit. auto.
Qed.

(** X1.  [normalise_path] never raises: it returns the text before the first
    question mark, which holds no question mark, and what it returns it
    leaves unchanged when applied again. *)
Theorem normalise_path_prefix (raw : string) :
  exists p,
    normalise_path raw = Some p
    /\ Py.contains "?" p = false
    /\ (raw = p \/ exists rest, raw = p ++ String "?" rest)
    /\ normalise_path p = Some p.
Proof.
  destruct (normalise_path_head raw) as (p & Hp & Hplain & Hraw).
  exists p. repeat split; try assumption.
  now apply normalise_path_plain.
Qed.

(** ** [scan_services] over several files *)

Lemma scan_code_match_adds (m : match_obj) :
  exists delta : gset string,
    forall implemented, scan_code_match implemented m = Some (delta ∪ implemented).
Proof.
  unfold scan_code_match.
  destruct (py_or _ _) as [r|].
  - destruct (Py.nonempty r && Py.startswith "/v" r).
    + destruct (normalise_path_head r) as (p & -> & _).
      exists {[p]}. reflexivity.
    + exists ∅. intros st. now rewrite (left_id_L ∅ (∪)).
  - exists ∅. intros st. now rewrite (left_id_L ∅ (∪)).
Qed.

Lemma scan_doc_match_adds (m : match_obj) :
  exists delta : gset string,
    forall implemented, scan_doc_match implemented m = Some (delta ∪ implemented).
Proof.
  unfold scan_doc_match.
  destruct (group 1 m) as [r|].
  - destruct (Py.nonempty r).
    + destruct (normalise_path_head r) as (p & -> & _).
      exists {[p]}. reflexivity.
    + exists ∅. intros st. now rewrite (left_id_L ∅ (∪)).
  - exists ∅. intros st. now rewrite (left_id_L ∅ (∪)).
Qed.

Lemma for_each_adds {A : Type} (body : gset string -> A -> option (gset string))
  (xs : list A) :
  (forall x, exists delta : gset string,
      forall st, body st x = Some (delta ∪ st)) ->
  exists delta : gset string,
    forall st, for_each body xs st = Some (delta ∪ st).
Proof.
  intros Hbody. induction xs as [|x xs (d2 & IH)].
  - exists ∅. intros st. simpl. now rewrite (left_id_L ∅ (∪)).
  - destruct (Hbody x) as (d1 & H1). exists (d2 ∪ d1). intros st.
    cbn [for_each]. rewrite H1. cbn [mbind option_bind]. rewrite IH.
    now rewrite (assoc_L (∪)).
Qed.

Lemma scan_file_adds (f : rs_file) :
  exists delta : option (gset string),
    (is_Some delta <-> scannable f)
    /\ forall implemented,
         scan_file implemented f = d ← delta; Some (d ∪ implemented).
Proof.
  unfold scan_file, scannable.
  destruct (String.eqb_spec (f_name f) "mod.rs") as [Hname|Hname].
  - exists (Some ∅). split; [split; eauto|].
    intros st. cbn [mbind option_bind]. now rewrite (left_id_L ∅ (∪)).
  - destruct (f_read_text f) as [content|].
    + destruct (for_each_adds scan_code_match
                  (finditer PATH_PATTERN content) scan_code_match_adds)
        as (d1 & H1).
      destruct (for_each_adds scan_doc_match
                  (finditer DOC_PATH_PATTERN content) scan_doc_match_adds)
        as (d2 & H2).
      exists (Some (d2 ∪ d1)). split; [split; eauto|].
      intros st. cbn [mbind option_bind]. rewrite H1.
      cbn [mbind option_bind]. rewrite H2. now rewrite (assoc_L (∪)).
    + exists None. split; [|reflexivity].
      split; [intros [? H]; discriminate H|].
      intros [H|[? H]]; [contradiction|discriminate H].
Qed.

Lemma scan_files_adds (rs_files : list rs_file) :
  exists delta : option (gset string),
    (is_Some delta <-> Forall scannable rs_files)
    /\ forall implemented,
         for_each scan_file rs_files implemented
         = d ← delta; Some (d ∪ implemented).
Proof.
  induction rs_files as [|f fs (d2 & Hd2 & IH)].
  - exists (Some ∅). split; [split; [constructor|eauto]|].
    intros st. cbn [for_each mbind option_bind].
    now rewrite (left_id_L ∅ (∪)).
  - destruct (scan_file_adds f) as (d1 & Hd1 & H1).
    destruct d1 as [d1|].
    + destruct d2 as [d2|].
      * exists (Some (d2 ∪ d1)). split.
        -- split; [|eauto]. intros _.
           constructor; [apply Hd1|apply Hd2]; eauto.
        -- intros st. cbn [for_each]. rewrite H1. cbn [mbind option_bind].
           rewrite IH. cbn [mbind option_bind]. now rewrite (assoc_L (∪)).
      * exists None. split.
        -- split; [intros [? H]; discriminate H|].
           intros H. apply Forall_cons_iff in H as [_ H]. now apply Hd2.
        -- intros st. cbn [for_each]. rewrite H1. cbn [mbind option_bind].
           now rewrite IH.
    + exists None. split.
      * split; [intros [? H]; discriminate H|].
        intros H. apply Forall_cons_iff in H as [H _]. now apply Hd1.
      * intros st. cbn [for_each]. now rewrite H1.
Qed.

Lemma for_each_app {A S : Type} (body : S -> A -> option S) (xs ys : list A)
  (st : S) :
  for_each body (xs ++ ys)%list st
  = for_each body xs st ≫= for_each body ys.
Proof.
  revert st. induction xs as [|x xs IH]; intros st; [reflexivity|].
  cbn [for_each app]. destruct (body st x) as [st'|]; [|reflexivity].
  cbn [mbind option_bind]. apply IH.
Qed.

(** X2.  The result of [scan_services] over two groups of files is the
    union of the results over each group, and it does not depend on the
    order of the files; it raises exactly when it raises on one of the
    groups.  When every entry other than mod.rs can be read, all three
    scans return. *)
Theorem scan_services_union (files1 files2 files' : list rs_file) :
  Permutation (files1 ++ files2)%list files' ->
  scan_services (files1 ++ files2)%list
  = (s1 ← scan_services files1; s2 ← scan_services files2; Some (s1 ∪ s2))
  /\ scan_services files' = scan_services (files1 ++ files2)%list
  /\ (Forall scannable (files1 ++ files2)%list ->
      exists s1 s2,
        scan_services files1 = Some s1
        /\ scan_services files2 = Some s2
        /\ scan_services (files1 ++ files2)%list = Some (s1 ∪ s2)
        /\ scan_services files' = Some (s1 ∪ s2)).
Proof.
  intros Hperm. unfold scan_services.
  destruct (scan_files_adds files1) as (d1 & Hd1 & H1).
  destruct (scan_files_adds files2) as (d2 & Hd2 & H2).
  assert (Happ : for_each scan_file (files1 ++ files2)%list ∅
                 = (s1 ← for_each scan_file files1 ∅;
                    s2 ← for_each scan_file files2 ∅; Some (s1 ∪ s2))).
  { rewrite for_each_app, H1. destruct d1 as [d1|]; [|reflexivity].
    cbn [mbind option_bind]. rewrite !H2.
    destruct d2 as [d2|]; [|reflexivity]. cbn [mbind option_bind].
    rewrite !(right_id_L ∅ (∪)). f_equal. apply (comm_L (∪)). }
  assert (Hord : for_each scan_file files' ∅
                 = for_each scan_file (files1 ++ files2)%list ∅).
  { symmetry. clear Happ H1 H2 Hd1 Hd2 d1 d2.
    generalize (∅ : gset string).
    induction Hperm as [|f l l' _ IH|f1 f2 l|l l' l'' _ IH1 _ IH2];
      intros st.
    - reflexivity.
    - cbn [for_each]. destruct (scan_file st f); [apply IH|reflexivity].
    - cbn [for_each].
      destruct (scan_file_adds f1) as (a1 & _ & A1).
      destruct (scan_file_adds f2) as (a2 & _ & A2).
      rewrite A1, A2.
      destruct a1 as [a1|], a2 as [a2|]; cbn [mbind option_bind];
        rewrite ?A1, ?A2; cbn [mbind option_bind]; try reflexivity.
      now rewrite !(assoc_L (∪)), (comm_L (∪) a1 a2).
    - now rewrite IH1. }
  split; [exact Happ|]. split; [exact Hord|].
  intros Hall. apply Forall_app in Hall as [Hall1 Hall2].
  apply Hd1 in Hall1 as [e1 ->]. apply Hd2 in Hall2 as [e2 ->].
  exists (e1 ∪ ∅), (e2 ∪ ∅).
  rewrite Hord, Happ, H1, H2. cbn [mbind option_bind]. auto.
Qed.

Lemma scan_services_union_witness :
  let a := mk_file "a.rs" (".get(" ++ quoted "/v1/a" ++ ")") in
  let b := mk_file "b.rs" ("format!(" ++ quoted "/v1/b/{id}" ++ ")") in
  exists s1 s2,
    scan_services [a] = Some s1
    /\ scan_services [b] = Some s2
    /\ scan_services ([a] ++ [b])%list = Some (s1 ∪ s2)
    /\ scan_services [b; a] = Some (s1 ∪ s2).
Proof.
  intros a b.
  apply (proj2 (proj2 (scan_services_union [a] [b] [b; a] (perm_swap b a [])))).
  cbn [app].
  constructor; [apply scannable_mk_file|].
  constructor; [apply scannable_mk_file|constructor].
Defined.

(** X3.  A file named mod.rs is skipped: whatever it holds, the result is
    that of the other files. *)
Theorem scan_services_skips_mod_rs (rs_files : list rs_file) :
  scan_services rs_files
  = scan_services
      (List.filter (fun f => negb (String.eqb (f_name f) "mod.rs")) rs_files).
Proof.
  unfold scan_services. generalize (∅ : gset string).
  induction rs_files as [|f fs IH]; intros st; [reflexivity|].
  cbn [for_each List.filter].
  destruct (String.eqb (f_name f) "mod.rs") eqn:Hname; cbn [negb].
  - assert (Hskip : scan_file st f = Some st)
      by (unfold scan_file; now rewrite Hname).
    rewrite Hskip. cbn [mbind option_bind]. apply IH.
  - cbn [for_each]. destruct (scan_file st f); [apply IH|reflexivity].
Qed.
(** ** The extraction patterns of the scanner *)

Lemma finditer_from_skip (r : re) (fuel pos : nat) (c : ascii) (s : string) :
  exec r accept pos (String c s) [] = None ->
  finditer_from (S fuel) r pos (String c s) = finditer_from fuel r (S pos) s.
Proof. intros H. cbn [finditer_from]. now rewrite H. Qed.

Lemma finditer_from_hit (r : re) (fuel pos : nat) (s : string) (res : result) :
  exec r accept pos s [] = Some res ->
  Nat.ltb pos (r_end res) = true ->
  finditer_from (S fuel) r pos s
  = mk_match pos (r_end res) (r_caps res)
      :: finditer_from fuel r (r_end res) (r_rest res).
Proof. intros H Hlt. cbn [finditer_from]. now rewrite H, Hlt. Qed.

Lemma exec_alt_second (r1 r2 : re) (k : cont) (pos : nat) (s : string)
  (g : caps) :
  exec r1 k pos s g = None ->
  exec (Alt r1 r2) k pos s g = exec r2 k pos s g.
Proof. intros H. cbn [exec]. now rewrite H. Qed.

Lemma for_each_keeps {A : Type}
  (body : gset string -> A -> option (gset string)) (xs : list A) (p : string) :
  (forall x, exists delta : gset string,
      forall st, body st x = Some (delta ∪ st)) ->
  forall st, p ∈ st ->
    exists st', for_each body xs st = Some st' /\ p ∈ st'.
Proof.
  intros Hbody st Hp. destruct (for_each_adds body xs Hbody) as (d & Hd).
  exists (d ∪ st). split; [apply Hd|]. apply elem_of_union. now right.
Qed.

Lemma for_each_member {A : Type}
  (body : gset string -> A -> option (gset string)) (xs : list A) (x : A)
  (p : string) :
  (forall x, exists delta : gset string,
      forall st, body st x = Some (delta ∪ st)) ->
  In x xs ->
  (forall st, exists st', body st x = Some st' /\ p ∈ st') ->
  forall st, exists st', for_each body xs st = Some st' /\ p ∈ st'.
Proof.
  intros Hbody Hin Hx. induction xs as [|y ys IH]; [contradiction|].
  intros st. cbn [for_each]. destruct Hin as [->|Hin].
  - destruct (Hx st) as (st1 & -> & Hp). cbn [mbind option_bind].
    now apply for_each_keeps.
  - destruct (Hbody y) as (d & Hd). rewrite Hd. cbn [mbind option_bind].
    now apply IH.
Qed.

(** A path found by the first loop, or by the second, is in the result. *)
Lemma scan_services_code_member (name content raw p : string) (m : match_obj) :
  String.eqb name "mod.rs" = false ->
  In m (finditer PATH_PATTERN content) ->
  py_or (py_or (py_or (group 1 m) (group 2 m)) (group 3 m)) (group 4 m)
  = Some raw ->
  Py.startswith "/v" raw = true ->
  normalise_path raw = Some p ->
  exists scanned,
    scan_services [mk_file name content] = Some scanned /\ p ∈ scanned.
Proof.
  intros Hname Hin Hraw Hv Hp.
  assert (Hne : Py.nonempty raw = true)
    by (destruct raw; [discriminate Hv|reflexivity]).
  destruct (for_each_member scan_code_match _ m p scan_code_match_adds Hin)
    with (st := (∅ : gset string)) as (st1 & H1 & Hp1).
  { intros st. eexists. unfold scan_code_match. rewrite Hraw, Hne, Hv, Hp.
    split; [reflexivity|]. apply elem_of_union. left.
    now apply elem_of_singleton. }
  destruct (for_each_keeps scan_doc_match
              (finditer DOC_PATH_PATTERN content) p scan_doc_match_adds
              st1 Hp1) as (st2 & H2 & Hp2).
  exists st2. split; [|exact Hp2].
  unfold scan_services. cbn [for_each]. unfold scan_file.
  unfold mk_file. cbn [f_name f_read_text]. rewrite Hname.
  cbn [mbind option_bind]. rewrite H1. cbn [mbind option_bind].
  now rewrite H2.
Qed.

Lemma scan_services_doc_member (name content raw p : string) (m : match_obj) :
  String.eqb name "mod.rs" = false ->
  In m (finditer DOC_PATH_PATTERN content) ->
  group 1 m = Some raw ->
  Py.nonempty raw = true ->
  normalise_path raw = Some p ->
  exists scanned,
    scan_services [mk_file name content] = Some scanned /\ p ∈ scanned.
Proof.
  intros Hname Hin Hraw Hne Hp.
  destruct (for_each_adds scan_code_match (finditer PATH_PATTERN content)
              scan_code_match_adds) as (d1 & H1).
  destruct (for_each_member scan_doc_match _ m p scan_doc_match_adds Hin)
    with (st := d1 ∪ (∅ : gset string)) as (st2 & H2 & Hp2).
  { intros st. eexists. unfold scan_doc_match. rewrite Hraw, Hne, Hp.
    split; [reflexivity|]. apply elem_of_union. left.
    now apply elem_of_singleton. }
  exists st2. split; [|exact Hp2].
  unfold scan_services. cbn [for_each]. unfold scan_file.
  unfold mk_file. cbn [f_name f_read_text]. rewrite Hname.
  cbn [mbind option_bind]. rewrite H1. cbn [mbind option_bind].
  now rewrite H2.
Qed.

Lemma finditer_from_prefix (r : re) (pre s : string) :
  no_match_in r pre s ->
  forall fuel pos,
    finditer_from (String.length pre + fuel) r pos (pre ++ s)
    = finditer_from fuel r (pos + String.length pre) s.
Proof.
  induction pre as [|c b IH]; intros Hno fuel pos.
  - rewrite sapp_nil_l. simpl. now rewrite Nat.add_0_r.
  - destruct Hno as [Hc Hb]. rewrite sapp_cons.
    cbn [String.length Nat.add].
    rewrite finditer_from_skip by apply Hc.
    rewrite (IH Hb). f_equal. lia.
Qed.

Lemma finditer_after_prefix (r : re) (pre s : string) (res : result) :
  no_match_in r pre s ->
  exec r accept (String.length pre) s [] = Some res ->
  Nat.ltb (String.length pre) (r_end res) = true ->
  In (mk_match (String.length pre) (r_end res) (r_caps res))
     (finditer r (pre ++ s)).
Proof.
  intros Hno Hex Hlt. unfold finditer. rewrite slength_app.
  replace (S (String.length pre + String.length s))
    with (String.length pre + S (String.length s)) by lia.
  rewrite (finditer_from_prefix r pre s Hno). cbn [Nat.add].
  rewrite (finditer_from_hit _ _ _ _ res Hex Hlt). now left.
Qed.

Ltac no_match := repeat split; intros; reflexivity.

(** X4.  A [format!] with a string literal, bound by [let path =]: the
    literal, if it begins with /v, reaches the set, cut at its first
    question mark. *)
Theorem scan_format_literal (name raw : string) :
  String.eqb name "mod.rs" = false ->
  Py.startswith "/v" raw = true ->
  Py.contains DQUOTE raw = false ->
  exists p scanned,
    normalise_path raw = Some p
    /\ scan_services
         [mk_file name ("let path = format!(" ++ quoted raw ++ ");")]
       = Some scanned
    /\ p ∈ scanned.
Proof.
  intros Hname Hv Hq.
  assert (Hne : Py.nonempty raw = true)
    by (destruct raw; [discriminate Hv|reflexivity]).
  destruct (normalise_path_head raw) as (p & Hp & _).
  exists p.
  set (m := mk_match 11 (21 + String.length raw) [(2, raw)]).
  assert (Hg : py_or (py_or (py_or (group 1 m) (group 2 m)) (group 3 m))
                     (group 4 m) = Some raw).
  { unfold group, m, py_or. cbn [m_caps lookup_group Nat.eqb].
    now rewrite !Hne. }
  destruct (scan_services_code_member name
              ("let path = format!(" ++ quoted raw ++ ");") raw p m
              Hname) as (scanned & Hscan & Hin); try assumption; [|eauto].
  change ("let path = format!(" ++ quoted raw ++ ");")
    with ("let path = " ++ "format!(" ++ quoted raw ++ ");").
  apply (finditer_after_prefix PATH_PATTERN "let path = "
           ("format!(" ++ quoted raw ++ ");")
           (mk_result (21 + String.length raw) ");" [(2, raw)])).
  - no_match.
  - unfold PATH_PATTERN. cbn [alts].
    rewrite exec_alt_second by reflexivity.
    apply exec_alt_first. cbn [seqs exec].
    change ("format!(" ++ quoted raw ++ ");")
      with ("format!" ++ String "(" (quoted raw ++ ");")).
    rewrite exec_lit. unfold SPACES0. cbn [exec].
    rewrite rep_stop by reflexivity.
    change (String "(" (quoted raw ++ ");")) with ("(" ++ quoted raw ++ ");").
    rewrite exec_lit. unfold quoted at 1.
    rewrite sapp_cons, rep_stop by reflexivity.
    change (String DQUOTE ((raw ++ String DQUOTE "") ++ ");"))
      with (quoted raw ++ ");").
    rewrite (exec_quoted_group 2 _ _ raw ");" [] Hne Hq).
    cbn [exec accept]. do 2 f_equal.
  - reflexivity.
Qed.

Lemma scan_format_literal_witness :
  exists p scanned,
    normalise_path "/v1/dubbing/{dubbing_id}?dry_run=true" = Some p
    /\ scan_services
         [mk_file "dubbing.rs"
            ("let path = format!("
               ++ quoted "/v1/dubbing/{dubbing_id}?dry_run=true" ++ ");")]
       = Some scanned
    /\ p ∈ scanned.
Proof.
  apply (scan_format_literal "dubbing.rs"
           "/v1/dubbing/{dubbing_id}?dry_run=true"); reflexivity.
Defined.
Lemma one_take (cs : cset) (k : cont) (pos : nat) (c : ascii) (s : string)
  (g : caps) :
  cset_mem cs c = true -> one cs k pos (String c s) g = k (S pos) s g.
Proof. intros H. simpl. now rewrite H. Qed.

Lemma rep_greedy (cs : cset) (k : cont) (v s : string) (g : caps)
  (res : result) :
  all_in cs v = true ->
  forall pos,
    rep cs k (pos + String.length v) s g = Some res ->
    rep cs k pos (v ++ s) g = Some res.
Proof.
  induction v as [|c v IH]; intros Hall pos H.
  - rewrite sapp_nil_l. now rewrite Nat.add_0_r in H.
  - simpl in Hall. apply andb_true_iff in Hall as [Hc Hv].
    rewrite sapp_cons. cbn [rep]. rewrite Hc.
    rewrite (IH Hv (S pos)); [reflexivity|].
    now replace (S pos + String.length v)
      with (pos + String.length (String c v)) by (simpl; lia).
Qed.

Lemma rep_stop_app (cs : cset) (k : cont) (pos : nat) (c : ascii)
  (t s : string) (g : caps) :
  cset_mem cs c = false ->
  rep cs k pos (String c t ++ s) g = k pos (String c t ++ s) g.
Proof. intros H. rewrite sapp_cons. now apply rep_stop. Qed.

Lemma first_some {A : Type} (x y : option A) (a : A) :
  x = Some a -> match x with Some r => Some r | None => y end = Some a.
Proof. now intros ->. Qed.

Lemma all_in_not (c : ascii) (v : string) :
  Py.contains c v = false -> all_in (NOT_LITERAL c) v = true.
Proof.
  induction v as [|a v IH]; [reflexivity|].
  simpl. intros H. apply orb_false_iff in H as [Ha Hv].
  now rewrite Ha, (IH Hv).
Qed.

(** X5.  A string literal bound by [let mut path =]: the literal, if it
    begins with /v, reaches the set, cut at its first question mark. *)
Theorem scan_let_path_literal (name raw : string) :
  String.eqb name "mod.rs" = false ->
  Py.startswith "/v" raw = true ->
  Py.contains DQUOTE raw = false ->
  exists p scanned,
    normalise_path raw = Some p
    /\ scan_services
         [mk_file name ("let mut path = " ++ quoted raw ++ ".to_owned();")]
       = Some scanned
    /\ p ∈ scanned.
Proof.
  intros Hname Hv Hq.
  assert (Hne : Py.nonempty raw = true)
    by (destruct raw; [discriminate Hv|reflexivity]).
  destruct (normalise_path_head raw) as (p & Hp & _).
  exists p.
  set (m := mk_match 0 (17 + String.length raw) [(3, raw)]).
  assert (Hg : py_or (py_or (py_or (group 1 m) (group 2 m)) (group 3 m))
                     (group 4 m) = Some raw).
  { unfold group, m, py_or. cbn [m_caps lookup_group Nat.eqb].
    now rewrite !Hne. }
  destruct (scan_services_code_member name
              ("let mut path = " ++ quoted raw ++ ".to_owned();") raw p m
              Hname) as (scanned & Hscan & Hin); try assumption; [|eauto].
  apply (finditer_after_prefix PATH_PATTERN EmptyString
           ("let mut path = " ++ quoted raw ++ ".to_owned();")
           (mk_result (17 + String.length raw) ".to_owned();" [(3, raw)])).
  - exact I.
  - unfold PATH_PATTERN. cbn [alts String.length].
    rewrite !exec_alt_second by reflexivity.
    apply exec_alt_first. cbn [seqs exec].
    change ("let mut path = " ++ quoted raw ++ ".to_owned();")
      with ("let" ++ String " " ("mut" ++ String " " ("path"
              ++ String " " ("=" ++ String " " (quoted raw ++ ".to_owned();"))))).
    rewrite exec_lit; cbv beta. unfold SPACES1, SPACES0. cbn [exec].
    rewrite one_take, rep_stop_app by reflexivity.
    apply first_some.
    rewrite exec_lit; cbv beta. rewrite one_take, rep_stop_app by reflexivity.
    rewrite exec_lit; cbv beta.
    apply (rep_greedy CATEGORY_SPACE _ " "); [reflexivity|].
    rewrite rep_stop_app by reflexivity.
    rewrite exec_lit; cbv beta.
    apply (rep_greedy CATEGORY_SPACE _ " "); [reflexivity|].
    unfold quoted at 1. rewrite sapp_cons, rep_stop by reflexivity.
    change (String DQUOTE ((raw ++ String DQUOTE "") ++ ".to_owned();"))
      with (quoted raw ++ ".to_owned();").
    rewrite (exec_quoted_group 3 _ _ raw ".to_owned();" [] Hne Hq).
    cbn [exec accept]. do 2 f_equal.
  - reflexivity.
Qed.

Lemma scan_let_path_literal_witness :
  exists p scanned,
    normalise_path "/v1/history" = Some p
    /\ scan_services
         [mk_file "history.rs"
            ("let mut path = " ++ quoted "/v1/history" ++ ".to_owned();")]
       = Some scanned
    /\ p ∈ scanned.
Proof.
  apply (scan_let_path_literal "history.rs" "/v1/history"); reflexivity.
Defined.
Lemma one_take_app (cs : cset) (k : cont) (pos : nat) (c : ascii)
  (t s : string) (g : caps) :
  cset_mem cs c = true ->
  one cs k pos (String c t ++ s) g = k (S pos) (t ++ s) g.
Proof. intros H. rewrite sapp_cons. now apply one_take. Qed.

(** X6.  A documentation comment that quotes a verb and a path between
    backquotes: the path, which begins with /v1/ here, reaches the set, cut
    at its first question mark, although no code mentions it. *)
Theorem scan_doc_comment (name rest : string) :
  String.eqb name "mod.rs" = false ->
  Py.nonempty rest = true ->
  Py.contains BQUOTE rest = false ->
  exists p scanned,
    normalise_path ("/v1/" ++ rest) = Some p
    /\ scan_services
         [mk_file name
            ("/// Calls " ++ String BQUOTE
               ("POST " ++ "/v1/" ++ rest ++ String BQUOTE "."))]
       = Some scanned
    /\ p ∈ scanned.
Proof.
  intros Hname Hne Hq.
  destruct (normalise_path_head ("/v1/" ++ rest)) as (p & Hp & _).
  exists p.
  set (raw := "/v1/" ++ rest).
  set (m := mk_match 10 (21 + String.length rest) [(1, raw)]).
  destruct (scan_services_doc_member name
              ("/// Calls " ++ String BQUOTE
                 ("POST " ++ "/v1/" ++ rest ++ String BQUOTE ".")) raw p m
              Hname) as (scanned & Hscan & Hin);
    try assumption; try reflexivity; [|eauto].
  apply (finditer_after_prefix DOC_PATH_PATTERN "/// Calls "
           (String BQUOTE ("POST " ++ "/v1/" ++ rest ++ String BQUOTE "."))
           (mk_result (21 + String.length rest) "." [(1, raw)])).
  - no_match.
  - unfold DOC_PATH_PATTERN, SPACES1. cbn [seqs exec String.length].
    rewrite one_take by reflexivity.
    cbn [alts map]. rewrite exec_alt_second by reflexivity.
    apply exec_alt_first.
    change ("POST " ++ "/v1/" ++ rest ++ String BQUOTE ".")
      with ("POST" ++ String " " ("/v" ++ String "1"
              ("/" ++ rest ++ String BQUOTE "."))).
    rewrite exec_lit; cbv beta.
    rewrite one_take, rep_stop_app by reflexivity.
    rewrite exec_lit; cbv beta.
    rewrite one_take, rep_stop_app by reflexivity.
    rewrite exec_lit; cbv beta.
    destruct rest as [|c v]; [discriminate|].
    simpl in Hq. apply orb_false_iff in Hq as [Hc Hv].
    rewrite one_take_app by (simpl; now rewrite Hc).
    apply (rep_greedy _ _ v); [now apply all_in_not|].
    rewrite rep_stop by reflexivity. cbv beta.
    rewrite one_take by reflexivity. unfold accept.
    change ("/v" ++ String "1" ("/" ++ String c v ++ String BQUOTE "."))
      with (raw ++ String BQUOTE ".").
    match goal with
    | |- context [substring 0 ?n _] =>
        replace n with (String.length raw) by (unfold raw; simpl; lia)
    end.
    rewrite substring_prefix. reflexivity.
  - reflexivity.
Qed.

Lemma scan_doc_comment_witness :
  exists p scanned,
    normalise_path ("/v1/" ++ "text-to-speech/{voice_id}") = Some p
    /\ scan_services
         [mk_file "text_to_speech.rs"
            ("/// Calls " ++ String BQUOTE
               ("POST " ++ "/v1/" ++ "text-to-speech/{voice_id}"
                  ++ String BQUOTE "."))]
       = Some scanned
    /\ p ∈ scanned.
Proof.
  apply (scan_doc_comment "text_to_speech.rs" "text-to-speech/{voice_id}");
    reflexivity.
Defined.
Lemma finditer_doc_none (s : string) :
  Py.contains BQUOTE s = false ->
  forall fuel pos, finditer_from fuel DOC_PATH_PATTERN pos s = [].
Proof.
  induction s as [|c b IH]; intros Hq fuel pos.
  - destruct fuel; reflexivity.
  - simpl in Hq. apply orb_false_iff in Hq as [Hc Hb].
    destruct fuel; [reflexivity|].
    rewrite finditer_from_skip; [now apply IH|].
    unfold DOC_PATH_PATTERN. cbn [seqs exec one cset_mem]. now rewrite Hc.
Qed.

(** X7.  The guard of the first loop: a call whose string literal does not
    begin with /v adds nothing to the set. *)
Theorem scan_guard_rejects (name raw : string) :
  Py.nonempty raw = true ->
  Py.startswith "/v" raw = false ->
  Py.contains DQUOTE raw = false ->
  Py.contains BQUOTE raw = false ->
  scan_services [mk_file name ("self.client.get(" ++ quoted raw ++ ")")]
  = Some ∅.
Proof.
  intros Hne Hv Hq Hb.
  unfold scan_services. cbn [for_each]. unfold scan_file, mk_file.
  cbn [f_name f_read_text].
  destruct (String.eqb name "mod.rs"); [reflexivity|].
  cbn [mbind option_bind].
  set (content := "self.client.get(" ++ quoted raw ++ ")").
  assert (Hcode : finditer PATH_PATTERN content
                  = [mk_match 11 (18 + String.length raw) [(1, raw)]]).
  { unfold finditer, content.
    change ("self.client.get(" ++ quoted raw ++ ")")
      with ("self.client" ++ ".get(" ++ quoted raw ++ ")").
    rewrite slength_app.
    replace (S (String.length "self.client"
                + String.length (".get(" ++ quoted raw ++ ")")))
      with (String.length "self.client"
            + S (String.length (".get(" ++ quoted raw ++ ")"))) by lia.
    rewrite finditer_from_prefix by no_match.
    assert (Hex : exec PATH_PATTERN accept (0 + String.length "self.client")
                       (".get(" ++ quoted raw ++ ")") []
                  = Some (mk_result (18 + String.length raw) ")" [(1, raw)])).
    { unfold PATH_PATTERN. cbn [alts].
      apply exec_alt_first. cbn [seqs].
      change (".get(" ++ quoted raw ++ ")")
        with ("." ++ "get" ++ String "(" (quoted raw ++ ")")).
      cbn [exec]. rewrite exec_lit.
      cbn [map CALL_NAMES alts].
      apply exec_alt_first.
      rewrite exec_lit. unfold SPACES0. cbn [exec].
      rewrite rep_stop by reflexivity.
      change (String "(" (quoted raw ++ ")")) with ("(" ++ quoted raw ++ ")").
      rewrite exec_lit. unfold quoted at 1.
      rewrite sapp_cons, rep_stop by reflexivity.
      change (String DQUOTE ((raw ++ String DQUOTE "") ++ ")"))
        with (quoted raw ++ ")").
      rewrite (exec_quoted_group 1 _ _ raw ")" [] Hne Hq).
      cbn [exec accept]. do 2 f_equal. }
    rewrite (finditer_from_hit _ _ _ _ _ Hex) by reflexivity.
    reflexivity. }
  assert (Hdoc : finditer DOC_PATH_PATTERN content = []).
  { apply finditer_doc_none. unfold content, quoted.
    rewrite !contains_app. cbn [Py.contains]. rewrite !contains_app, Hb.
    reflexivity. }
  rewrite Hcode, Hdoc. cbn [for_each].
  unfold scan_code_match, group, py_or.
  cbn [m_caps lookup_group Nat.eqb]. rewrite !Hne, Hv. reflexivity.
Qed.

Lemma scan_guard_rejects_witness :
  scan_services
    [mk_file "models.rs" ("self.client.get(" ++ quoted "/models" ++ ")")]
  = Some ∅.
Proof.
  apply (scan_guard_rejects "models.rs" "/models"); reflexivity.
Defined.
(** ** More on [match_endpoint] *)

Lemma any_match_mono (regex : re) (implemented implemented' : gset string) :
  implemented ⊆ implemented' ->
  any_match regex implemented = true -> any_match regex implemented' = true.
Proof.
  intros Hsub H. apply any_match_iff in H as (p & Hin & Hp).
  apply any_match_iff. exists p. split; [|exact Hp]. now apply Hsub.
Qed.

Lemma covers_mono (implemented implemented' : gset string) (ep_path : string) :
  implemented ⊆ implemented' ->
  covers implemented ep_path = true -> covers implemented' ep_path = true.
Proof.
  intros Hsub. unfold covers. rewrite !orb_true_iff.
  intros [H|H]; [left|right].
  - apply bool_decide_eq_true in H. apply bool_decide_eq_true. now apply Hsub.
  - now apply (any_match_mono _ implemented).
Qed.

Lemma filter_length_le {A : Type} (f g : A -> bool) (l : list A) :
  (forall x, f x = true -> g x = true) ->
  length (List.filter f l) <= length (List.filter g l).
Proof.
  intros H. induction l as [|x l IH]; [reflexivity|].
  simpl. destruct (f x) eqn:Hf.
  - rewrite (H x Hf). simpl. lia.
  - destruct (g x); simpl; lia.
Qed.

(** X8.  Implementing more never loses coverage: when the implemented set
    grows, a template that was covered stays covered, every endpoint that
    was classified covered stays so, and the covered count does not go
    down. *)
Theorem coverage_monotone
  (endpoints : list endpoint) (implemented implemented' : gset string)
  (path : string) :
  implemented ⊆ implemented' ->
  (match_endpoint path implemented = Some true ->
   match_endpoint path implemented' = Some true)
  /\ exists r r',
       coverage endpoints implemented = Some r
       /\ coverage endpoints implemented' = Some r'
       /\ Forall (fun ep => In ep (rp_covered r')) (rp_covered r)
       /\ Forall (fun ep => In ep (rp_missing r)) (rp_missing r')
       /\ (rp_covered_count r <= rp_covered_count r')%Z
       /\ rp_total_active r = rp_total_active r'.
Proof.
  intros Hsub. split.
  - rewrite !match_endpoint_covers. intros H. injection H as H.
    now rewrite (covers_mono _ _ _ Hsub H).
  - do 2 eexists. split; [apply coverage_eq|]. split; [apply coverage_eq|].
    cbn [rp_covered rp_missing rp_covered_count rp_total_active].
    split; [|split; [|split; [|reflexivity]]].
    + apply List.Forall_forall. intros ep Hep.
      apply filter_In in Hep as [Ha Hc]. apply filter_In.
      split; [exact Ha|]. now apply (covers_mono implemented).
    + apply List.Forall_forall. intros ep Hep.
      apply filter_In in Hep as [Ha Hc]. apply filter_In.
      split; [exact Ha|]. apply negb_true_iff in Hc. apply negb_true_iff.
      destruct (covers implemented (ep_path ep)) eqn:E; [|reflexivity].
      now rewrite (covers_mono _ _ _ Hsub E) in Hc.
    + apply inj_le. apply filter_length_le. intros ep.
      now apply covers_mono.
Qed.

Lemma coverage_monotone_witness :
  let ep := mk_endpoint "GET" "/v1/voices/{voice_id}" (JStr "") false in
  let implemented : gset string := {["/v1/models"]} in
  let implemented' : gset string := {["/v1/voices/{id}"]} ∪ {["/v1/models"]} in
  (match_endpoint "/v1/models" implemented = Some true ->
   match_endpoint "/v1/models" implemented' = Some true)
  /\ exists r r',
       coverage [ep] implemented = Some r
       /\ coverage [ep] implemented' = Some r'
       /\ Forall (fun ep => In ep (rp_covered r')) (rp_covered r)
       /\ Forall (fun ep => In ep (rp_missing r)) (rp_missing r')
       /\ (rp_covered_count r <= rp_covered_count r')%Z
       /\ rp_total_active r = rp_total_active r'.
Proof.
  intros ep implemented implemented'.
  apply (coverage_monotone [ep] implemented implemented' "/v1/models").
  apply union_subseteq_r.
Defined.

Lemma covers_empty (ep_path : string) : covers ∅ ep_path = false.
Proof.
  unfold covers, any_match. rewrite elements_empty. simpl.
  rewrite bool_decide_eq_false_2; [reflexivity|]. apply not_elem_of_empty.
Qed.

Lemma filter_all {A : Type} (f : A -> bool) (l : list A) :
  (forall x, f x = true) -> List.filter f l = l.
Proof.
  intros H. induction l as [|x l IH]; [reflexivity|].
  simpl. now rewrite H, IH.
Qed.

Lemma filter_none {A : Type} (f : A -> bool) (l : list A) :
  (forall x, f x = false) -> List.filter f l = [].
Proof.
  intros H. induction l as [|x l IH]; [reflexivity|].
  simpl. now rewrite H, IH.
Qed.

(** X9.  With nothing implemented nothing is covered: [match_endpoint]
    answers false on the empty set for every template, and the report lists
    every active endpoint as missing, with a covered count of 0. *)
Theorem nothing_implemented (endpoints : list endpoint) (path : string) :
  match_endpoint path ∅ = Some false
  /\ exists r,
       coverage endpoints ∅ = Some r
       /\ rp_covered r = []
       /\ rp_missing r = rp_active r
       /\ rp_covered_count r = 0%Z.
Proof.
  split.
  - now rewrite match_endpoint_covers, covers_empty.
  - eexists. split; [apply coverage_eq|].
    cbn [rp_covered rp_missing rp_active rp_covered_count].
    rewrite (filter_none (fun ep => covers ∅ (ep_path ep)))
      by (intros; apply covers_empty).
    rewrite (filter_all (fun ep => negb (covers ∅ (ep_path ep))))
      by (intros; now rewrite covers_empty).
    auto.
Qed.
Lemma tokens_literals (p : string) :
  Py.contains "{" p = false \/ Py.contains "}" p = false ->
  tokens p = literals p.
Proof.
  induction p as [|c r IH]; [reflexivity|].
  intros H. rewrite tokens_literal.
  - cbn [literals]. f_equal. apply IH.
    destruct H as [H|H]; simpl in H;
      apply orb_false_iff in H as [_ H]; auto.
  - destruct H as [H|H]; simpl in H; apply orb_false_iff in H as [Hc Hr].
    + now rewrite Hc.
    + rewrite Hr. apply andb_false_r.
Qed.

Lemma tokens_match_literals (wild : string -> Prop) (p q : string) :
  tokens_match wild (literals p) q <-> q = p.
Proof.
  revert q. induction p as [|c r IH]; intros q; cbn [literals]; split.
  - now inversion 1.
  - intros ->. constructor.
  - inversion 1; subst. f_equal. now apply IH.
  - intros ->. constructor. now apply IH.
Qed.

(** X10.  A template with no placeholder (no opening brace, or no closing
    brace) gains nothing from the structural step: it is covered exactly
    when the set holds the template itself, or the template followed by one
    newline character. *)
Theorem placeholder_free_template (path : string) (implemented : gset string) :
  Py.contains "{" path = false \/ Py.contains "}" path = false ->
  (match_endpoint path implemented = Some true
   <-> path ∈ implemented
       \/ (path ++ String "010" EmptyString) ∈ implemented).
Proof.
  intros Hfree.
  destruct (decide (path ∈ implemented)) as [Hin|Hnot].
  - rewrite match_endpoint_covers, (covers_exact _ _ Hin). tauto.
  - rewrite (match_endpoint_fallback path implemented Hnot).
    rewrite (tokens_literals path Hfree). split.
    + intros (p & q & Hp & Hq & Hpq).
      apply tokens_match_literals in Hq. subst q.
      destruct Hpq as [->| ->]; auto.
    + intros [H|H]; [contradiction|].
      exists (path ++ String "010" EmptyString), path.
      split; [exact H|]. split; [now apply tokens_match_literals|now right].
Qed.

Lemma placeholder_free_template_witness :
  match_endpoint "/v1/models" {["/v1/models/{id}"]} = Some true
  <-> "/v1/models" ∈ ({["/v1/models/{id}"]} : gset string)
      \/ ("/v1/models" ++ String "010" EmptyString)
           ∈ ({["/v1/models/{id}"]} : gset string).
Proof.
  apply (placeholder_free_template "/v1/models" {["/v1/models/{id}"]}).
  left. reflexivity.
Defined.

Lemma tokens_app_literal (l s : string) :
  Py.contains "{" l = false -> tokens (l ++ s) = (literals l ++ tokens s)%list.
Proof.
  induction l as [|c l IH]; intros H; [reflexivity|].
  simpl in H. apply orb_false_iff in H as [Hc Hl].
  rewrite sapp_cons, tokens_literal by now rewrite Hc.
  cbn [literals app]. f_equal. now apply IH.
Qed.

Lemma tokens_braced (n s : string) :
  Py.contains "}" n = false ->
  tokens (String "{" (n ++ String "}" s)) = TWild :: tokens s.
Proof.
  intros Hn. rewrite tokens_placeholder.
  - now rewrite (proj2 (before_after_unique n s Hn)).
  - rewrite contains_app. simpl. apply orb_true_r.
Qed.

Lemma tokens_match_app (wild : string -> Prop) (ts1 ts2 : list token)
  (q1 q2 : string) :
  tokens_match wild ts1 q1 -> tokens_match wild ts2 q2 ->
  tokens_match wild (ts1 ++ ts2)%list (q1 ++ q2).
Proof.
  induction 1 as [|c ts p _ IH|v ts p Hv _ IH]; intros H2.
  - exact H2.
  - rewrite sapp_cons. cbn [app]. constructor. now apply IH.
  - rewrite sapp_assoc. cbn [app]. constructor; [exact Hv|now apply IH].
Qed.

Lemma template_matches (parts parts' : list (string * string)) (tail : string) :
  Forall2 same_place parts parts' ->
  Py.contains "{" tail = false ->
  tokens_match braced (tokens (template parts tail)) (template parts' tail).
Proof.
  intros Hparts Htail.
  induction Hparts as [|[l n] [l' n'] ps ps' Hsame _ IH].
  - cbn [template]. rewrite tokens_literals by now left.
    now apply tokens_match_literals.
  - destruct Hsame as (Hl & Hfree & Hn & Hne & Hn'). cbn [fst snd] in *.
    subst l'. cbn [template].
    rewrite (tokens_app_literal l _ Hfree), (tokens_braced n _ Hn).
    apply tokens_match_app; [now apply tokens_match_literals|].
    change (String "{" (n' ++ String "}" (template ps' tail)))
      with (String "{" (n' ++ String "}" EmptyString ++ template ps' tail)).
    rewrite <- sapp_assoc, <- sapp_cons.
    constructor; [|exact IH].
    exists n'. auto.
Qed.

(** X11.  Placeholder names never matter, whatever the number of
    placeholders: a template is covered by an implemented path that has the
    same literal pieces and, at each placeholder, any non-empty name free
    of closing braces. *)
Theorem placeholders_renamed
  (parts parts' : list (string * string)) (tail : string)
  (implemented : gset string) :
  Forall2 same_place parts parts' ->
  Py.contains "{" tail = false ->
  template parts' tail ∈ implemented ->
  match_endpoint (template parts tail) implemented = Some true.
Proof.
  intros Hparts Htail Hin. rewrite match_endpoint_covers. f_equal.
  apply (covers_structural _ (template parts' tail)); [exact Hin|].
  now apply template_matches.
Qed.

Lemma placeholders_renamed_witness :
  match_endpoint "/v1/voices/{voice_id}/samples/{sample_id}/audio"
                 {["/v1/voices/{id}/samples/{sid}/audio"]}
  = Some true.
Proof.
  apply (placeholders_renamed
           [("/v1/voices/", "voice_id"); ("/samples/", "sample_id")]
           [("/v1/voices/", "id"); ("/samples/", "sid")] "/audio").
  - repeat constructor; discriminate.
  - reflexivity.
  - apply elem_of_singleton. reflexivity.
Defined.
(** ** More on the aggregation *)

Lemma filter_split_permutation {A : Type} (f : A -> bool) (l : list A) :
  Permutation (List.filter f l ++ List.filter (fun x => negb (f x)) l)%list l.
Proof.
  induction l as [|x l IH]; [constructor|].
  simpl. destruct (f x); simpl.
  - now constructor.
  - apply Permutation_sym, Permutation_cons_app, Permutation_sym, IH.
Qed.

Lemma filter_split_length {A : Type} (f : A -> bool) (l : list A) :
  length (List.filter f l) + length (List.filter (fun x => negb (f x)) l)
  = length l.
Proof.
  rewrite <- length_app.
  apply Permutation_length, filter_split_permutation.
Qed.

(** X12.  The covered and the missing endpoints partition the active ones:
    together they are a rearrangement of the active list, no endpoint is in
    both, and the covered count plus the number of missing endpoints is the
    active count. *)
Theorem covered_missing_partition
  (endpoints : list endpoint) (implemented : gset string) :
  exists r,
    coverage endpoints implemented = Some r
    /\ Permutation (rp_covered r ++ rp_missing r)%list (rp_active r)
    /\ Forall (fun ep => ~ In ep (rp_missing r)) (rp_covered r)
    /\ (rp_covered_count r + Z.of_nat (length (rp_missing r))
        = rp_total_active r)%Z
    /\ (0 <= rp_covered_count r <= rp_total_active r)%Z.
Proof.
  eexists. split; [apply coverage_eq|].
  cbn [rp_covered rp_missing rp_active rp_covered_count rp_total_active].
  set (active := List.filter is_active endpoints).
  pose proof (filter_split_length
                (fun ep => covers implemented (ep_path ep)) active) as Hlen.
  cbv beta in Hlen.
  split; [apply filter_split_permutation|].
  split; [|lia].
  apply List.Forall_forall. intros ep Hc Hm.
  apply filter_In in Hc as [_ Hc]. apply filter_In in Hm as [_ Hm].
  rewrite Hc in Hm. discriminate.
Qed.

Lemma filter_three_way (endpoints : list endpoint) :
  length endpoints
  = length (List.filter is_active endpoints)
    + length (List.filter (fun ep => ep_deprecated ep) endpoints)
    + length (List.filter
                (fun ep => negb (ep_deprecated ep)
                           && bool_decide (ep_path ep ∈ EXCLUDED_PATHS))
                endpoints).
Proof.
  induction endpoints as [|ep l IH]; [reflexivity|].
  cbn [List.filter]. unfold is_active at 1.
  destruct (ep_deprecated ep), (bool_decide (ep_path ep ∈ EXCLUDED_PATHS));
    simpl; lia.
Qed.

(** X13.  Every endpoint of the specification is counted once: the total is
    the active count, plus the deprecated ones, plus the endpoints that are
    not deprecated but lie on an excluded path.  So the report's total
    exceeds active plus deprecated by the number of those. *)
Theorem endpoints_accounted
  (endpoints : list endpoint) (implemented : gset string) :
  exists r,
    coverage endpoints implemented = Some r
    /\ rp_endpoints r = endpoints
    /\ (Z.of_nat (length (rp_endpoints r))
        = rp_total_active r + Z.of_nat (length (rp_deprecated r))
          + Z.of_nat
              (length
                 (List.filter
                    (fun ep => negb (ep_deprecated ep)
                               && bool_decide (ep_path ep ∈ EXCLUDED_PATHS))
                    endpoints)))%Z
    /\ Forall (fun ep => In ep endpoints)
              (rp_active r ++ rp_deprecated r)%list
    /\ Forall (fun ep => ep_deprecated ep = true) (rp_deprecated r).
Proof.
  eexists. split; [apply coverage_eq|].
  cbn [rp_endpoints rp_active rp_deprecated rp_total_active].
  split; [reflexivity|]. split; [|split].
  - rewrite (filter_three_way endpoints) at 1. lia.
  - rewrite List.Forall_app. split; apply List.Forall_forall; intros ep Hep;
      now apply filter_In in Hep.
  - apply List.Forall_forall. intros ep Hep. now apply filter_In in Hep.
Qed.
(** ** Exact percentages *)

Lemma fexp_normal (e : Z) :
  (-1074 <= e)%Z -> fexp prec emax (53 + e) = e.
Proof. intros H. unfold fexp, emin, prec, emax. lia. Qed.

Lemma shr_fexp_normal (m : positive) (e : Z) :
  Z.pos (digits2_pos m) = 53%Z -> (-1074 <= e)%Z ->
  shr_fexp prec emax (Z.pos m) e loc_Exact
  = ({| shr_m := Z.pos m; shr_r := false; shr_s := false |}, e).
Proof.
  intros Hd He. unfold shr_fexp. cbn [Zdigits2]. rewrite Hd.
  rewrite (fexp_normal e He), Z.sub_diag. reflexivity.
Qed.

(** A mantissa of 53 bits with an exponent in range is a float as it is. *)
Lemma binary_round_aux_normal (s : bool) (m : positive) (e : Z) :
  Z.pos (digits2_pos m) = 53%Z -> (-1074 <= e <= 971)%Z ->
  binary_round_aux prec emax s (Z.pos m) e loc_Exact = S754_finite s m e.
Proof.
  intros Hd He. unfold binary_round_aux.
  rewrite (shr_fexp_normal m e Hd) by lia.
  cbn [shr_m loc_of_shr_record round_nearest_even].
  rewrite (shr_fexp_normal m e Hd) by lia. cbn [shr_m].
  replace (Z.leb e (emax - prec)) with true; [reflexivity|].
  symmetry. apply Z.leb_le. unfold emax, prec. lia.
Qed.

Lemma digits2_pos_iter (p : positive) (k : positive) :
  Z.pos (digits2_pos (Pos.iter xO p k)) = (Z.pos (digits2_pos p) + Z.pos k)%Z.
Proof.
  induction k as [|k IH] using Pos.peano_ind.
  - simpl. lia.
  - rewrite Pos.iter_succ. cbn [digits2_pos]. lia.
Qed.

(** An integer between 1 and 2^53 - 1 is a float with a mantissa of 53
    bits. *)
Lemma float_of_int_normal (z : Z) :
  (0 < z < 2 ^ 53)%Z ->
  exists m e, float_of_int z = S754_finite false m e
              /\ Z.pos (digits2_pos m) = 53%Z /\ (-52 <= e <= 0)%Z.
Proof.
  intros Hz. destruct z as [|p|p]; try lia.
  unfold float_of_int, binary_normalize, binary_round.
  assert (Hd : (1 <= Z.pos (digits2_pos p) <= 53)%Z).
  { split; [lia|].
    assert (Hlog : (Z.pos (digits2_pos p) = Z.log2 (Z.pos p) + 1)%Z).
    { clear Hz. induction p as [p IH|p IH|]; cbn [digits2_pos].
      - rewrite Pos2Z.inj_succ, IH.
        change (Z.pos p~1) with (2 * Z.pos p + 1)%Z.
        rewrite Z.log2_succ_double by lia. lia.
      - rewrite Pos2Z.inj_succ, IH.
        change (Z.pos p~0) with (2 * Z.pos p)%Z.
        rewrite Z.log2_double by lia. lia.
      - reflexivity. }
    rewrite Hlog. assert (Z.log2 (Z.pos p) < 53)%Z; [|lia].
    apply Z.log2_lt_pow2; lia. }
  assert (Hf : fexp prec emax (Z.pos (digits2_pos p) + 0)
               = (Z.pos (digits2_pos p) - 53)%Z)
    by (unfold fexp, emin, prec, emax; lia).
  rewrite Hf. unfold shl_align.
  destruct (Z.pos (digits2_pos p) - 53 - 0)%Z as [|k|k] eqn:Hk; try lia.
  - exists p, 0%Z. rewrite binary_round_aux_normal by lia.
    repeat split; lia.
  - exists (Pos.iter xO p k), (Z.pos (digits2_pos p) - 53)%Z.
    assert (Hdk : Z.pos (digits2_pos (Pos.iter xO p k)) = 53%Z)
      by (rewrite digits2_pos_iter; lia).
    rewrite binary_round_aux_normal by lia.
    repeat split; lia.
Qed.
Lemma SFdiv_self (m : positive) (e : Z) :
  Z.pos (digits2_pos m) = 53%Z ->
  SFdiv prec emax (S754_finite false m e) (S754_finite false m e) = FLOAT_ONE.
Proof.
  intros Hd. unfold SFdiv, SFdiv_core_binary. cbn [Zdigits2 xorb].
  rewrite Hd.
  replace (53 + e - (53 + e))%Z with 0%Z by lia.
  replace (e - e)%Z with 0%Z by lia.
  change (Z.min (fexp prec emax 0) 0) with (-53)%Z.
  change (0 - -53)%Z with 53%Z. cbv iota.
  rewrite Z.shiftl_mul_pow2 by lia.
  assert (Hdiv : Z.div_eucl (Z.pos m * 2 ^ 53) (Z.pos m) = ((2 ^ 53)%Z, 0%Z)).
  { pose proof (Z.div_mul (2 ^ 53) (Z.pos m)) as Hq.
    pose proof (Z.mod_mul (2 ^ 53) (Z.pos m)) as Hr.
    unfold Z.div, Z.modulo in Hq, Hr.
    rewrite (Z.mul_comm (Z.pos m)).
    destruct (Z.div_eucl (2 ^ 53 * Z.pos m) (Z.pos m)) as [q r].
    rewrite Hq, Hr by lia. reflexivity. }
  rewrite Hdiv.
  assert (Hloc : new_location (Z.pos m) 0 = loc_Exact).
  { unfold new_location, new_location_even, new_location_odd.
    now destruct (Z.even (Z.pos m)). }
  rewrite Hloc. vm_compute. reflexivity.
Qed.

Lemma pct_of_all (n : Z) :
  (0 < n < 2 ^ 53)%Z -> pct_of n n = PyFloat FLOAT_HUNDRED.
Proof.
  intros Hn. unfold pct_of.
  replace (n =? 0)%Z with false by (symmetry; apply Z.eqb_neq; lia).
  destruct (float_of_int_normal n Hn) as (m & e & -> & Hd & _).
  rewrite (SFdiv_self m e Hd). vm_compute. reflexivity.
Qed.

Lemma pct_of_none (n : Z) :
  (0 < n < 2 ^ 53)%Z -> pct_of 0 n = PyFloat (S754_zero false).
Proof.
  intros Hn. unfold pct_of.
  replace (n =? 0)%Z with false by (symmetry; apply Z.eqb_neq; lia).
  destruct (float_of_int_normal n Hn) as (m & e & -> & _).
  reflexivity.
Qed.

(** X14.  When every active endpoint is covered, and there is at least one
    (fewer than 2^53), the percentage is the float 100.0 exactly, so a
    threshold of 100 passes. *)
Theorem all_covered_is_100
  (endpoints : list endpoint) (implemented : gset string) (r : report) :
  coverage endpoints implemented = Some r ->
  rp_missing r = [] ->
  (0 < rp_total_active r < 2 ^ 53)%Z ->
  rp_pct r = PyFloat FLOAT_HUNDRED
  /\ FLOAT_HUNDRED = float_of_int 100
  /\ gate r (SetTo (float_of_int 100)) = mk_outcome (Some r) Done.
Proof.
  intros Hcov Hmiss Hn.
  assert (Hpct : rp_pct r = PyFloat FLOAT_HUNDRED).
  { rewrite coverage_eq in Hcov. injection Hcov as <-.
    cbn [rp_pct rp_covered_count rp_total_active rp_missing] in *.
    pose proof (filter_split_length
                  (fun ep => covers implemented (ep_path ep))
                  (List.filter is_active endpoints)) as Hsum.
    cbv beta in Hsum. rewrite Hmiss in Hsum. cbn [length] in Hsum.
    replace (Z.of_nat (length (List.filter _ (List.filter is_active endpoints))))
      with (Z.of_nat (length (List.filter is_active endpoints))) by lia.
    now apply pct_of_all. }
  split; [exact Hpct|]. split; [vm_compute; reflexivity|].
  unfold gate. cbn [read_threshold]. rewrite Hpct. vm_compute. reflexivity.
Qed.

Lemma all_covered_is_100_witness :
  let ep := mk_endpoint "GET" "/v1/models" (JStr "") false in
  let r := mk_report [ep] [ep] [] [ep] [] 1 1 (PyFloat FLOAT_HUNDRED) in
  rp_pct r = PyFloat FLOAT_HUNDRED
  /\ FLOAT_HUNDRED = float_of_int 100
  /\ gate r (SetTo (float_of_int 100)) = mk_outcome (Some r) Done.
Proof.
  intros ep r.
  apply (all_covered_is_100 [ep] {["/v1/models"]} r).
  - vm_compute. reflexivity.
  - reflexivity.
  - simpl. lia.
Defined.

(** X15.  When no active endpoint is covered, and there is at least one
    (fewer than 2^53), the percentage is the float 0.0, so the run fails
    for every threshold above zero. *)
Theorem none_covered_is_0
  (endpoints : list endpoint) (implemented : gset string) (r : report)
  (threshold : spec_float) :
  coverage endpoints implemented = Some r ->
  rp_covered r = [] ->
  (0 < rp_total_active r < 2 ^ 53)%Z ->
  SFltb (S754_zero false) threshold = true ->
  rp_pct r = PyFloat (S754_zero false)
  /\ gate r (SetTo threshold) = mk_outcome (Some r) BelowThreshold.
Proof.
  intros Hcov Hnone Hn Hth.
  assert (Hpct : rp_pct r = PyFloat (S754_zero false)).
  { rewrite coverage_eq in Hcov. injection Hcov as <-.
    cbn [rp_pct rp_covered rp_total_active] in *.
    rewrite Hnone. cbn [length]. now apply pct_of_none. }
  split; [exact Hpct|].
  unfold gate. cbn [read_threshold]. unfold num_lt. rewrite Hpct.
  cbn [to_float]. now rewrite Hth.
Qed.

Lemma none_covered_is_0_witness :
  let ep := mk_endpoint "GET" "/v1/models" (JStr "") false in
  let r := mk_report [ep] [ep] [] [] [ep] 1 0 (PyFloat (S754_zero false)) in
  rp_pct r = PyFloat (S754_zero false)
  /\ gate r (SetTo (float_of_int 1)) = mk_outcome (Some r) BelowThreshold.
Proof.
  intros ep r.
  apply (none_covered_is_0 [ep] ∅ r (float_of_int 1)).
  - vm_compute. reflexivity.
  - reflexivity.
  - simpl. lia.
  - vm_compute. reflexivity.
Defined.
(** ** Error behaviour of the loader and of [main] *)

Lemma for_each_parse_path_item_shape (paths : list (string * json)) :
  forall endpoints result,
    for_each parse_path_item paths endpoints = Some result ->
    Forall (fun item => is_dict (snd item) = true) paths.
Proof.
  induction paths as [|[path methods] paths IH]; intros endpoints result H.
  - constructor.
  - cbn [for_each] in H.
    destruct (parse_path_item endpoints (path, methods)) as [st|] eqn:E;
      [|discriminate].
    cbn [mbind option_bind] in H. constructor; [|now apply (IH st result)].
    cbn [snd]. destruct methods; try discriminate E. reflexivity.
Qed.

Lemma dict_get_absent (key : string) (d : list (string * json))
  (default : json) :
  Forall (fun item => fst item <> key) d -> dict_get key d default = default.
Proof.
  induction 1 as [|[k v] d Hk _ IH]; [reflexivity|].
  cbn [dict_get]. cbn [fst] in Hk.
  destruct (String.eqb_spec k key); [contradiction|exact IH].
Qed.

(** X16.  The loader returns exactly when the document is an object whose
    [paths] member, an empty object when the key is absent, is an object
    that maps every path to an object; on any other document it raises.
    With no [paths] key it returns the empty list. *)
Theorem parse_openapi_raises (spec : json) (top : list (string * json)) :
  (is_Some (parse_openapi spec)
   <-> exists members paths,
         spec = JDict members
         /\ dict_get "paths" members (JDict []) = JDict paths
         /\ Forall (fun item => is_dict (snd item) = true) paths)
  /\ (Forall (fun item => fst item <> "paths") top ->
      parse_openapi (JDict top) = Some []).
Proof.
  split.
  - split.
    + intros [eps H]. unfold parse_openapi in H.
      destruct spec as [| | | | | |members]; try discriminate H.
      cbn [get mbind option_bind] in H.
      destruct (dict_get "paths" members (JDict [])) as [| | | | | |paths]
        eqn:Hp; try discriminate H.
      cbn [items mbind option_bind] in H.
      exists members, paths. repeat split; [exact Hp|].
      now apply (for_each_parse_path_item_shape paths [] eps).
    + intros (members & paths & -> & Hp & Hshape).
      unfold parse_openapi. cbn [get mbind option_bind]. rewrite Hp.
      cbn [items mbind option_bind].
      rewrite (for_each_parse_path_item paths Hshape). now eexists.
  - intros Habsent. unfold parse_openapi. cbn [get mbind option_bind].
    now rewrite (dict_get_absent _ _ _ Habsent).
Qed.

Lemma parse_openapi_raises_witness :
  parse_openapi (JDict [("openapi", JStr "3.1.0"); ("info", JDict [])])
  = Some [].
Proof.
  apply (proj2 (parse_openapi_raises JNull
                  [("openapi", JStr "3.1.0"); ("info", JDict [])])).
  repeat constructor; discriminate.
Defined.

(** Documents on which the loader raises: a list at the top, a list for
    [paths], a path item that is no object. *)
Example parse_openapi_raises_examples :
  parse_openapi (JList []) = None
  /\ parse_openapi (JDict [("paths", JList [])]) = None
  /\ parse_openapi (JDict [("paths", JDict [("/v1/models", JNull)])]) = None.
Proof. repeat split. Qed.


(* ===================================================================== *)
(** * Properties of the mock server                                        *)
(* ===================================================================== *)

Import MockServer.

Lemma exec_lit_iff (t : string) (k : cont) :
  forall (pos : nat) (s : string) (g : caps) (res : result),
    exec (lit t) k pos s g = Some res
    <-> exists s', s = t ++ s' /\ k (pos + String.length t) s' g = Some res.
Proof.
  induction t as [|c t IH]; intros pos s g res.
  - cbn [lit exec String.length]. rewrite Nat.add_0_r. split.
    + intros H. exists s. auto.
    + intros (s' & -> & H). exact H.
  - cbn [lit exec]. split.
    + intros H. apply one_sound in H as (c' & s1 & -> & Hc & Hk).
      simpl in Hc. apply Ascii.eqb_eq in Hc. subst c'.
      apply IH in Hk as (s' & -> & Hk). exists s'. rewrite sapp_cons.
      split; [reflexivity|].
      now replace (pos + String.length (String c t))
        with (S pos + String.length t) by (simpl; lia).
    + intros (s' & -> & Hk). rewrite sapp_cons, one_take
        by (simpl; apply Ascii.eqb_refl).
      apply IH. exists s'. split; [reflexivity|].
      now replace (S pos + String.length t)
        with (pos + String.length (String c t)) by (simpl; lia).
Qed.

Lemma re_match_literal (t path : string) :
  is_Some (re_match (literal_pattern t) path)
  <-> path = t \/ path = t ++ String "010" EmptyString.
Proof.
  unfold re_match, literal_pattern. cbn [seqs exec Nat.eqb]. split.
  - intros [res H]. apply exec_lit_iff in H as (s' & -> & H).
    destruct (at_end s') eqn:E; [|discriminate].
    apply at_end_cases in E as [->| ->]; [left|right]; [|reflexivity].
    now rewrite sapp_nil_r.
  - intros Hp.
    assert (Hs : exists s', path = t ++ s' /\ at_end s' = true).
    { destruct Hp as [->| ->];
        [exists EmptyString|exists (String "010" EmptyString)];
        split; try reflexivity. now rewrite sapp_nil_r. }
    destruct Hs as (s' & -> & Hs).
    eexists. apply exec_lit_iff. exists s'. split; [reflexivity|].
    rewrite Hs. reflexivity.
Qed.





Lemma item0_split_query (p q : string) :
  Py.contains "?" p = false ->
  Py.item0 (Py.split "?" (p ++ String "?" q)) = Some p.
Proof.
  induction p as [|c p IH]; intros H.
  - reflexivity.
  - simpl in H. apply orb_false_iff in H as [Hc Hp].
    rewrite sapp_cons. cbn [Py.split]. rewrite Hc.
    specialize (IH Hp). unfold Py.item0 in *.
    destruct (Py.split "?" (p ++ String "?" q)) as [|x xs];
      [discriminate IH|].
    injection IH as ->. reflexivity.
Qed.

(** X18.  The query string of the request target never affects the answer
    of the mock server: the target is cut at its first question mark before
    the routes are tried, and the 404 message names the path without it. *)
Theorem route_ignores_query (method path query : string) :
  Py.contains "?" path = false ->
  _route (path ++ String "?" query) method = _route path method
  /\ exists r, _route path method = Some r.
Proof.
  intros H. unfold _route.
  rewrite (item0_split_query path query H).
  unfold Py.item0. rewrite (split_no_sep "?" path H).
  cbn [head mbind option_bind]. split; [reflexivity|].
  destruct (List.find _ ROUTES); eauto.
Qed.

Lemma route_ignores_query_witness :
  _route ("/v1/history" ++ String "?" "page_size=10") "GET"
  = _route "/v1/history" "GET"
  /\ exists r, _route "/v1/history" "GET" = Some r.
Proof.
  apply (route_ignores_query "GET" "/v1/history" "page_size=10").
  reflexivity.
Defined.


Lemma find_all_false {A : Type} (f : A -> bool) (l : list A) :
  (forall x, In x l -> f x = false) -> List.find f l = None.
Proof.
  induction l as [|x l IH]; intros H; [reflexivity|].
  cbn [List.find]. rewrite (H x (or_introl eq_refl)).
  apply IH. intros y Hy. apply H. now right.
Qed.

Lemma route_plain (path method : string) :
  Py.contains "?" path = false ->
  _route path method
  = match List.find (route_matches method path) ROUTES with
    | Some rt =>
        Some (mk_response (rt_status rt) (rt_content_type rt) (rt_body rt))
    | None =>
        Some (mk_response 404 "application/json"
                (NOT_FOUND ("Not found: " ++ method ++ " " ++ path)))
    end.
Proof.
  intros H. unfold _route, Py.item0. now rewrite (split_no_sep "?" path H).
Qed.






Lemma lit_inj (t t' : string) : lit t = lit t' -> t = t'.
Proof.
  revert t'. induction t as [|c t IH]; intros [|c' t'] H;
    try discriminate H; [reflexivity|].
  injection H as -> H. f_equal. now apply IH.
Qed.

Lemma literal_pattern_inj (t t' : string) :
  literal_pattern t = literal_pattern t' -> t = t'.
Proof.
  unfold literal_pattern. cbn [seqs]. intros H. injection H as H.
  now apply lit_inj.
Qed.

Ltac route_cases H :=
  unfold ROUTES in H; cbn [In] in H;
  repeat (destruct H as [H|H]; [|]); [..|contradiction].

(** X20.  GET requests: a target that is the path of a GET route of the
    table, or that path followed by one newline character, gets the 200
    answer with the body of that route; no other target gets a 200 answer,
    and a target that is neither gets 404 with a message naming the method
    and the path. *)
Theorem get_routes (path : string) :
  Py.contains "?" path = false ->
  (forall rt t,
      In rt ROUTES -> rt_method rt = "GET" ->
      rt_pattern rt = literal_pattern t ->
      path = t \/ path = t ++ String "010" EmptyString ->
      do_GET path = Some (mk_response 200 "application/json" (rt_body rt)))
  /\ (forall r,
        do_GET path = Some r -> rs_status r = 200%Z ->
        exists rt t,
          In rt ROUTES /\ rt_method rt = "GET"
          /\ rt_pattern rt = literal_pattern t
          /\ (path = t \/ path = t ++ String "010" EmptyString)
          /\ r = mk_response 200 "application/json" (rt_body rt))
  /\ ((forall rt t,
         In rt ROUTES -> rt_method rt = "GET" ->
         rt_pattern rt = literal_pattern t ->
         path <> t /\ path <> t ++ String "010" EmptyString) ->
      do_GET path
      = Some (mk_response 404 "application/json"
                (NOT_FOUND ("Not found: GET " ++ path)))).
Proof.
  intros Hq. split; [|split].
  - intros rt t Hin Hm Hp Hpath. clear Hq.
    route_cases Hin; subst rt; cbn [rt_method rt_pattern rt_body] in *;
      try discriminate Hm;
      apply literal_pattern_inj in Hp; subst t;
      destruct Hpath as [->| ->]; vm_compute; reflexivity.
  - intros r Hr Hs. unfold do_GET in Hr.
    rewrite (route_plain path "GET" Hq) in Hr.
    destruct (List.find (route_matches "GET" path) ROUTES) as [rt|] eqn:Hf.
    + injection Hr as <-. apply find_some in Hf as [Hin Hm].
      unfold route_matches in Hm. apply andb_true_iff in Hm as [Hmeth Hre].
      apply String.eqb_eq in Hmeth. apply bool_decide_eq_true in Hre.
      pose proof Hin as Hin'.
      route_cases Hin'; subst rt; cbn [rt_method rt_pattern] in *;
        try discriminate Hmeth;
        apply re_match_literal in Hre;
        (eexists; eexists; split; [exact Hin|];
         split; [reflexivity|]; split; [reflexivity|];
         split; [exact Hre|reflexivity]).
    + injection Hr as <-. discriminate Hs.
  - intros Hnone. unfold do_GET. rewrite (route_plain path "GET" Hq).
    assert (Hfind : List.find (route_matches "GET" path) ROUTES = None).
    { apply find_all_false. intros rt Hin. unfold route_matches.
      destruct (String.eqb_spec (rt_method rt) "GET") as [Hm|Hm];
        [|reflexivity].
      cbn [andb]. apply bool_decide_eq_false_2. intros Hre.
      pose proof Hin as Hin'.
      route_cases Hin'; subst rt; cbn [rt_method rt_pattern] in *;
        try discriminate Hm;
        apply re_match_literal in Hre;
        (eapply Hnone in Hin as [Hn1 Hn2]; [|reflexivity|reflexivity]);
        destruct Hre as [Hre|Hre]; contradiction. }
    now rewrite Hfind.
Qed.

Lemma get_routes_witness :
  do_GET "/v1/user/subscription"
  = Some (mk_response 200 "application/json" SUBSCRIPTION).
Proof.
  apply (proj1 (get_routes "/v1/user/subscription" eq_refl)
           (mk_route "GET" (literal_pattern "/v1/user/subscription") 200
                     "application/json" SUBSCRIPTION)
           "/v1/user/subscription").
  - unfold ROUTES. simpl. tauto.
  - reflexivity.
  - reflexivity.
  - left. reflexivity.
Defined.
